(** * winston-tcp: the TCP transport's connection life cycle and bounded buffer

    A shallow embedding of [src/TcpTransport.ts].  The class [TcpTransport]
    is an event-driven object: between two events a handler runs to
    completion on Node's single thread.  Each handler is a function from the
    object's fields to the new fields and the list of effects it performed;
    the environment's choices (does [socket.write] throw, does
    [socket.connect] throw) are carried by the event that triggers the
    handler.

    Numbers: the options are JavaScript numbers, that is doubles.  The model
    takes them to be integers that are doubles (finite, exactly
    representable) and carries them as [Z].  Comparisons and [+ 1] are then
    exact.  The one place where double arithmetic differs from integer
    arithmetic on such inputs is the product [retryDelay * 2 ** retryCount],
    which overflows; [backoff_delay] follows the doubles there (infinities
    and NaN).  [retryCount] only ever starts at 0, is incremented and is
    reset to 0, so it is a [nat].

    [emit]: a notification is an entry of the trace of effects.  Listeners
    are taken to return, with one exception, which the code cannot exclude:
    [emit('error', e)] throws when nothing handles the error (Node throws
    when no listener is registered, and winston's logger re-emits the
    error on itself, which throws in turn when the logger has no listener;
    the repository's test wraps the overflowing call in a try/catch for
    that reason).  Whether an ['error'] emit throws is therefore a choice of
    the environment, like the outcome of [socket.write]; an exception that
    leaves a function is the last entry, [Throw], of its trace. *)

From Stdlib Require Import ZArith List String Ascii Bool Lia.
Import ListNotations.

Local Open Scope Z_scope.
Local Open Scope list_scope.

(** ** Options and configuration *)

(** [TcpTransportOptions]: the optional fields are [option]s. *)
Record TcpTransportOptions := mkOptions {
  opt_host : string;
  opt_port : Z;
  opt_maxRetries : option Z;   (* -1 for infinite *)
  opt_retryDelay : option Z;   (* ms *)
  opt_maxBackoff : option Z;   (* ms *)
  opt_bufferMax : option Z     (* max buffered messages *)
}.

(** JavaScript's [a ?? b]. *)
Definition nullish {A : Type} (a : option A) (b : A) : A :=
  match a with
  | Some v => v
  | None => b
  end.

(** The fields the constructor copies from the options and never writes
    again. *)
Record Config := mkConfig {
  host : string;
  port : Z;
  maxRetries : Z;
  retryDelay : Z;
  maxBackoff : Z;
  bufferMax : Z
}.

Definition config_of (options : TcpTransportOptions) : Config :=
  {| host := opt_host options;
     port := opt_port options;
     maxRetries := nullish (opt_maxRetries options) (-1);
     retryDelay := nullish (opt_retryDelay options) 1000;
     maxBackoff := nullish (opt_maxBackoff options) 30000;
     bufferMax := nullish (opt_bufferMax options) 1000 |}.

(** ** The socket and the timer, as far as the transport uses them *)

Module Net.

(** What the transport can observe or cause on a [net.Socket]. *)
Record Socket := mkSocket {
  keepAlive : option Z;              (* setKeepAlive(true, ms) *)
  remote : option (Z * string);      (* connect(port, host) was called *)
  ended : bool;                      (* end(cb) was called, cb not yet run *)
  destroyed : bool;                  (* destroy() was called *)
  written : list string;             (* the data of the calls of write()
                                        that returned, in order *)
  refused : list string              (* those of them the socket could not
                                        take *)
}.

Definition new_Socket : Socket :=
  {| keepAlive := None; remote := None; ended := false;
     destroyed := false; written := []; refused := [] |}.

Definition setKeepAlive (ms : Z) (s : Socket) : Socket :=
  {| keepAlive := Some ms; remote := remote s; ended := ended s;
     destroyed := destroyed s; written := written s; refused := refused s |}.

Definition connect (p : Z) (h : string) (s : Socket) : Socket :=
  {| keepAlive := keepAlive s; remote := Some (p, h); ended := ended s;
     destroyed := destroyed s; written := written s; refused := refused s |}.

(** Can the socket take data: [connect] was called (data written while the
    attempt is in flight is queued), and neither [end] nor [destroy]. *)
Definition writable (s : Socket) : bool :=
  match remote s with
  | Some _ => negb (ended s) && negb (destroyed s)
  | None => false
  end.

(** A [write] that returns normally.  On a socket that cannot take the data
    the call returns all the same (the failure is reported later, by the
    socket's ['error'] event), and the data is lost. *)
Definition write (message : string) (s : Socket) : Socket :=
  {| keepAlive := keepAlive s; remote := remote s; ended := ended s;
     destroyed := destroyed s; written := written s ++ [message];
     refused := if writable s then refused s else refused s ++ [message] |}.

Definition end_ (s : Socket) : Socket :=
  {| keepAlive := keepAlive s; remote := remote s; ended := true;
     destroyed := destroyed s; written := written s; refused := refused s |}.

Definition destroy (s : Socket) : Socket :=
  {| keepAlive := keepAlive s; remote := remote s; ended := ended s;
     destroyed := true; written := written s; refused := refused s |}.

(** The callback given to [end] has been called. *)
Definition end_called (s : Socket) : Socket :=
  {| keepAlive := keepAlive s; remote := remote s; ended := false;
     destroyed := destroyed s; written := written s; refused := refused s |}.

End Net.

(** The doubles end below [2^1024]: a product of that size is an
    infinity. *)
Definition double_overflow : Z := 2 ^ 1024.

Arguments double_overflow : simpl never.

(** The values [Math.min(this.retryDelay * 2 ** this.retryCount,
    this.maxBackoff)] can take: a number of milliseconds, or what double
    arithmetic makes of an overflowing product. *)
Inductive Delay :=
| Ms (ms : Z)
| NegInfinity
| NaN.

(** A handle returned by [setTimeout]: its delay, and whether the callback
    is still to run ([clearTimeout] and the firing itself both end that). *)
Record Timeout := mkTimeout {
  timeout_delay : Delay;
  timeout_pending : bool
}.

(** ** Notifications and effects *)

Inductive ErrorCause :=
| WriteError          (* the exception caught around socket.write *)
| BufferOverflow.     (* new Error('Buffer overflow') *)

Inductive Notification :=
| Connected
| Disconnected
| Reconnecting (delay : Delay) (attempt : Z)
| Error (cause : ErrorCause)
| Logged (info : string)
| Closed.

Inductive Effect :=
| Emit (n : Notification)           (* this.emit(...) *)
| SetImmediate (n : Notification)   (* setImmediate(() => this.emit(...)) *)
| Callback                          (* callback() of log *)
| Call_flushBuffer                  (* ghost: _flushBuffer was entered *)
| Throw (cause : ErrorCause).       (* the exception leaves the function *)

(** Did the function whose trace this is end by an exception? *)
Definition threw (effs : list Effect) : bool :=
  existsb (fun x => match x with
                    | Throw _ => true
                    | _ => false
                    end) effs.

(** ** The mutable fields of [TcpTransport] *)

Record TcpTransport := mkTransport {
  buffer : list string;
  retryCount : nat;
  connected : bool;
  closing : bool;
  reconnectTimer : option Timeout;
  socket : option Net.Socket
}.

Definition set_buffer (b : list string) (t : TcpTransport) : TcpTransport :=
  {| buffer := b; retryCount := retryCount t; connected := connected t;
     closing := closing t; reconnectTimer := reconnectTimer t;
     socket := socket t |}.

Definition set_retryCount (n : nat) (t : TcpTransport) : TcpTransport :=
  {| buffer := buffer t; retryCount := n; connected := connected t;
     closing := closing t; reconnectTimer := reconnectTimer t;
     socket := socket t |}.

Definition set_connected (c : bool) (t : TcpTransport) : TcpTransport :=
  {| buffer := buffer t; retryCount := retryCount t; connected := c;
     closing := closing t; reconnectTimer := reconnectTimer t;
     socket := socket t |}.

Definition set_closing (c : bool) (t : TcpTransport) : TcpTransport :=
  {| buffer := buffer t; retryCount := retryCount t; connected := connected t;
     closing := c; reconnectTimer := reconnectTimer t; socket := socket t |}.

Definition set_reconnectTimer (r : option Timeout) (t : TcpTransport)
  : TcpTransport :=
  {| buffer := buffer t; retryCount := retryCount t; connected := connected t;
     closing := closing t; reconnectTimer := r; socket := socket t |}.

Definition set_socket (s : option Net.Socket) (t : TcpTransport)
  : TcpTransport :=
  {| buffer := buffer t; retryCount := retryCount t; connected := connected t;
     closing := closing t; reconnectTimer := reconnectTimer t; socket := s |}.

(** The field initialisers of the class. *)
Definition fields_init : TcpTransport :=
  {| buffer := []; retryCount := 0; connected := false; closing := false;
     reconnectTimer := None; socket := None |}.

(** [os.EOL] on POSIX hosts; the development only uses that it is not
    empty. *)
Definition EOL : string := String (ascii_of_nat 10) EmptyString.

(** JavaScript truthiness of a string and of an optional object. *)
Definition truthy (s : string) : bool :=
  match s with
  | EmptyString => false
  | String _ _ => true
  end.

Definition defined {A : Type} (o : option A) : bool :=
  match o with
  | Some _ => true
  | None => false
  end.

(** [this.buffer.length] as a number. *)
Definition occupancy (t : TcpTransport) : Z :=
  Z.of_nat (List.length (buffer t)).

(** ** The methods *)

(** The guard of [_scheduleReconnect] on the retry budget. *)
Definition retries_exhausted (cfg : Config) (t : TcpTransport) : bool :=
  (maxRetries cfg >=? 0) && (Z.of_nat (retryCount t) >=? maxRetries cfg).

(** [Math.min(this.retryDelay * 2 ** this.retryCount, this.maxBackoff)],
    for options that are integral doubles.  [2 ** n] is exact up to
    [n = 1023] and [Infinity] from 1024 on; the product of a double integer
    and a power of two is exact as long as it is a double, and an infinity
    of its sign otherwise.  So: [0 * Infinity] is [NaN], and so is the
    minimum; a negative product that overflows is [-Infinity], and so is
    the minimum; a positive product that overflows is [Infinity], and the
    minimum is [maxBackoff], which is what [Z.min] gives as well; in all
    other cases the arithmetic is that of the integers. *)
Definition backoff_delay (cfg : Config) (n : nat) : Delay :=
  let product := retryDelay cfg * 2 ^ Z.of_nat n in
  if (retryDelay cfg =? 0) && (1024 <=? n)%nat then NaN
  else if (retryDelay cfg <? 0) && (- double_overflow <? retryDelay cfg)
          && (product <=? - double_overflow) then NegInfinity
  else Ms (Z.min product (maxBackoff cfg)).

(** [_scheduleReconnect].  The handle stored before, if any, is cleared and
    then overwritten, so the stored handle is the only one that can be
    pending. *)
Definition _scheduleReconnect (cfg : Config) (t : TcpTransport)
  : TcpTransport * list Effect :=
  if closing t then (t, [])
  else if retries_exhausted cfg t then (t, [])
  else
    let delay := backoff_delay cfg (retryCount t) in
    let h := {| timeout_delay := delay; timeout_pending := true |} in
    let t1 := set_reconnectTimer (Some h) t in
    (t1, [Emit (Reconnecting delay (Z.of_nat (retryCount t) + 1))]).

(** [_connect].  The previous socket is destroyed and loses its listeners,
    so it delivers no event any more and is dropped from the state.
    [connect_throws] says whether [socket.connect] throws. *)
Definition _connect (cfg : Config) (t : TcpTransport) (connect_throws : bool)
  : TcpTransport * list Effect :=
  let s := Net.setKeepAlive 60000 Net.new_Socket in
  if connect_throws
  then _scheduleReconnect cfg (set_socket (Some s) t)
  else (set_socket (Some (Net.connect (port cfg) (host cfg) s)) t, []).

(** [_safeWrite].  [write_throws] says whether [socket.write] throws, and
    [emit_throws] whether [this.emit('error', err)] does; the emit is the
    first statement of the catch block, so when it throws the rest of the
    block is not run. *)
Definition _safeWrite (cfg : Config) (t : TcpTransport) (message : string)
    (write_throws emit_throws : bool) : TcpTransport * list Effect :=
  match socket t with
  | None => (t, [])
  | Some s =>
      if write_throws then
        if emit_throws then (t, [Emit (Error WriteError); Throw WriteError])
        else
          let t1 := if occupancy t <? bufferMax cfg
                    then set_buffer (message :: buffer t) t
                    else t in
          let '(t2, effs) := _scheduleReconnect cfg t1 in
          (t2, Emit (Error WriteError) :: effs)
      else (set_socket (Some (Net.write message s)) t, [])
  end.

(** The condition of the loop of [_flushBuffer]. *)
Definition flush_guard (t : TcpTransport) : bool :=
  negb (Nat.eqb (List.length (buffer t)) 0) && connected t
  && defined (socket t).

(** The loop of [_flushBuffer].  [write_throws k] says whether the [k]-th
    call of [socket.write] made by this run throws, and [emit_throws k]
    whether the ['error'] emit for that call throws; an exception out of
    [_safeWrite] ends the loop.  The loop need not terminate: [None] means
    the [fuel] did not suffice. *)
Fixpoint flush_loop (fuel : nat) (cfg : Config)
    (write_throws emit_throws : nat -> bool)
    (k : nat) (t : TcpTransport) : option (TcpTransport * list Effect) :=
  if flush_guard t then
    match fuel with
    | O => None
    | S fuel' =>
        match buffer t with
        | [] => Some (t, [])    (* excluded by the guard *)
        | message :: rest =>
            let t1 := set_buffer rest t in
            if truthy message then
              let '(t2, effs) :=
                _safeWrite cfg t1 message (write_throws k) (emit_throws k) in
              if threw effs then Some (t2, effs)
              else
                match flush_loop fuel' cfg write_throws emit_throws (S k) t2
                with
                | Some (t3, effs') => Some (t3, effs ++ effs')
                | None => None
                end
            else flush_loop fuel' cfg write_throws emit_throws k t1
        end
    end
  else Some (t, []).

Definition _flushBuffer (fuel : nat) (cfg : Config)
    (write_throws emit_throws : nat -> bool) (t : TcpTransport)
  : option (TcpTransport * list Effect) :=
  match flush_loop fuel cfg write_throws emit_throws 0 t with
  | Some (t', effs) => Some (t', Call_flushBuffer :: effs)
  | None => None
  end.

(** The text put on the wire for [info]: [`${info[MESSAGE]}${os.EOL}`];
    [info] stands for the record's formatted text. *)
Definition wire (info : string) : string := String.append info EOL.

(** [log(info, callback)].  [emit_throws] says whether the ['error'] emit
    of this call, if there is one, throws; the exception then leaves [log]
    and [callback()] is not reached. *)
Definition log (cfg : Config) (t : TcpTransport) (info : string)
    (write_throws emit_throws : bool) : TcpTransport * list Effect :=
  let message := wire info in
  let '(t1, effs) :=
    if connected t && defined (socket t)
    then _safeWrite cfg t message write_throws emit_throws
    else if occupancy t >=? bufferMax cfg
         then (t, if emit_throws
                  then [Emit (Error BufferOverflow); Throw BufferOverflow]
                  else [Emit (Error BufferOverflow)])
         else (set_buffer (buffer t ++ [message]) t, []) in
  (t1, SetImmediate (Logged info)
         :: (if threw effs then effs else effs ++ [Callback])).

(** [close()]. *)
Definition close (t : TcpTransport) : TcpTransport * list Effect :=
  let t1 := set_closing true t in
  let t2 := match reconnectTimer t1 with
            | Some _ => set_reconnectTimer None t1
            | None => t1
            end in
  match socket t2 with
  | Some s => (set_socket (Some (Net.end_ s)) t2, [])
  | None => (t2, [])
  end.

(** ** The listeners *)

(** [socket.on('connect', ...)].  An exception out of the flush leaves the
    listener (an async function: its promise is rejected) before
    ['connected'] is emitted. *)
Definition on_connect (fuel : nat) (cfg : Config) (t : TcpTransport)
    (write_throws emit_throws : nat -> bool)
  : option (TcpTransport * list Effect) :=
  let t1 := set_connected true t in
  let t2 := set_retryCount 0 t1 in
  match _flushBuffer fuel cfg write_throws emit_throws t2 with
  | Some (t3, effs) =>
      Some (t3, if threw effs then effs else effs ++ [Emit Connected])
  | None => None
  end.

(** [socket.on('error', ...)]. *)
Definition on_error (cfg : Config) (t : TcpTransport)
  : TcpTransport * list Effect :=
  _scheduleReconnect cfg (set_connected false t).

(** [socket.on('close', ...)]. *)
Definition on_close (cfg : Config) (t : TcpTransport)
  : TcpTransport * list Effect :=
  let t1 := set_connected false t in
  if negb (closing t1) then
    let '(t2, effs) := _scheduleReconnect cfg t1 in
    (t2, Emit Disconnected :: effs)
  else (t1, [Emit Disconnected]).

(** [socket.on('timeout', ...)]. *)
Definition on_timeout (cfg : Config) (t : TcpTransport)
  : TcpTransport * list Effect :=
  let t1 := match socket t with
            | Some s => set_socket (Some (Net.destroy s)) t
            | None => t
            end in
  _scheduleReconnect cfg t1.

(** The callback of [setTimeout] in [_scheduleReconnect]. *)
Definition on_timer (cfg : Config) (t : TcpTransport) (connect_throws : bool)
  : TcpTransport * list Effect :=
  let t0 := match reconnectTimer t with
            | Some h => set_reconnectTimer
                          (Some {| timeout_delay := timeout_delay h;
                                   timeout_pending := false |}) t
            | None => t
            end in
  let t1 := set_retryCount (S (retryCount t0)) t0 in
  _connect cfg t1 connect_throws.

(** The callback given to [socket.end] in [close]. *)
Definition on_end (t : TcpTransport) : TcpTransport * list Effect :=
  let t1 := match socket t with
            | Some s => set_socket (Some (Net.destroy (Net.end_called s))) t
            | None => t
            end in
  (t1, [Emit Closed]).

(** [new TcpTransport(options)]: the fields, then [_connect()]. *)
Definition new_TcpTransport (options : TcpTransportOptions)
    (connect_throws : bool) : TcpTransport * list Effect :=
  _connect (config_of options) fields_init connect_throws.

(** ** The event loop *)

(** What can re-enter the object: the socket's events, the timer, the end
    callback, and the two public methods. *)
Inductive Event :=
| SocketConnect (write_throws emit_throws : nat -> bool)
| SocketError
| SocketClose
| SocketTimeout
| TimerFires (connect_throws : bool)
| EndCallback
| CallLog (info : string) (write_throws emit_throws : bool)
| CallClose.

(** Listeners are attached to the current socket only; the timer callback
    runs only for a pending handle; the end callback only after [end]. *)
Definition enabled (e : Event) (t : TcpTransport) : bool :=
  match e with
  | SocketConnect _ _ | SocketError | SocketClose | SocketTimeout =>
      defined (socket t)
  | TimerFires _ =>
      match reconnectTimer t with
      | Some h => timeout_pending h
      | None => false
      end
  | EndCallback =>
      match socket t with
      | Some s => Net.ended s
      | None => false
      end
  | CallLog _ _ _ | CallClose => true
  end.

(** One handler run to its end (it returns, or an exception leaves it);
    [None] when the fuel given to the flush did not suffice. *)
Definition handle (fuel : nat) (cfg : Config) (t : TcpTransport)
    (ev : Event) : option (TcpTransport * list Effect) :=
  match ev with
  | SocketConnect w e => on_connect fuel cfg t w e
  | SocketError => Some (on_error cfg t)
  | SocketClose => Some (on_close cfg t)
  | SocketTimeout => Some (on_timeout cfg t)
  | TimerFires c => Some (on_timer cfg t c)
  | EndCallback => Some (on_end t)
  | CallLog info w e => Some (log cfg t info w e)
  | CallClose => Some (close t)
  end.

(** A step of the event loop: an enabled event whose handler comes to its
    end, by returning or by an exception ([Throw] is then the last
    effect). *)
Inductive step (cfg : Config) (t : TcpTransport)
  : Event -> TcpTransport -> list Effect -> Prop :=
| step_intro (e : Event) (fuel : nat) (t' : TcpTransport)
    (effs : list Effect) :
    enabled e t = true ->
    handle fuel cfg t e = Some (t', effs) ->
    step cfg t e t' effs.

(** Runs of the event loop, with the events handled and the effects
    performed. *)
Inductive steps (cfg : Config) (t : TcpTransport)
  : list Event -> TcpTransport -> list Effect -> Prop :=
| steps_nil : steps cfg t [] t []
| steps_cons (e : Event) (es : list Event) (t1 t2 : TcpTransport)
    (effs1 effs2 : list Effect) :
    step cfg t e t1 effs1 ->
    steps cfg t1 es t2 effs2 ->
    steps cfg t (e :: es) t2 (effs1 ++ effs2).

(** The states an instance built with configuration [cfg] can be in between
    two handlers. *)
Inductive reachable (cfg : Config) : TcpTransport -> Prop :=
| reachable_new (connect_throws : bool) :
    reachable cfg (fst (_connect cfg fields_init connect_throws))
| reachable_step (t t' : TcpTransport) (e : Event) (effs : list Effect) :
    reachable cfg t ->
    step cfg t e t' effs ->
    reachable cfg t'.

(** Executable runner for concrete scenarios: handles the events in order,
    [None] if one is not enabled or its handler runs out of fuel. *)
Fixpoint run (fuel : nat) (cfg : Config) (t : TcpTransport) (es : list Event)
  : option (TcpTransport * list Effect) :=
  match es with
  | [] => Some (t, [])
  | e :: es' =>
      if enabled e t then
        match handle fuel cfg t e with
        | Some (t1, effs1) =>
            match run fuel cfg t1 es' with
            | Some (t2, effs2) => Some (t2, effs1 ++ effs2)
            | None => None
            end
        | None => None
        end
      else None
  end.

(** The records the calls of [log] among [es] put on the wire, in order. *)
Definition sent (es : list Event) : list string :=
  flat_map (fun e => match e with
                     | CallLog info _ _ => [wire info]
                     | _ => []
                     end) es.

(** Events other than the socket's ['connect']. *)
Definition not_connect (e : Event) : bool :=
  match e with
  | SocketConnect _ _ => false
  | _ => true
  end.

(** How often [_flushBuffer] was entered in a trace of effects. *)
Definition flush_calls (effs : list Effect) : nat :=
  List.length (filter (fun x => match x with
                           | Call_flushBuffer => true
                           | _ => false
                           end) effs).

(** The ['logged'] notifications scheduled in a trace of effects. *)
Definition logged_of (effs : list Effect) : list string :=
  flat_map (fun x => match x with
                     | SetImmediate (Logged info) => [info]
                     | _ => []
                     end) effs.

(** The overflow reports in a trace of effects. *)
Definition overflow_reports (effs : list Effect) : nat :=
  List.length (filter (fun x => match x with
                           | Emit (Error BufferOverflow) => true
                           | _ => false
                           end) effs).

(** [n] consecutive failed attempts: the socket reports an error, the timer
    fires and [_connect] starts the next attempt. *)
Fixpoint failed_rounds (n : nat) : list Event :=
  match n with
  | O => []
  | S n' => SocketError :: TimerFires false :: failed_rounds n'
  end.

(** The ['reconnecting'] notification of attempt index [i]. *)
Definition reconnecting_at (cfg : Config) (i : nat) : Effect :=
  Emit (Reconnecting (backoff_delay cfg i) (Z.of_nat i + 1)).

(** ** Concrete instances used in the examples *)

Definition localhost : string := "localhost"%string.

(** The options of the repository's tests, with [bufferMax] as given. *)
Definition test_config (bmax : Z) : Config :=
  config_of {| opt_host := localhost; opt_port := 9000;
               opt_maxRetries := None; opt_retryDelay := Some 10;
               opt_maxBackoff := None; opt_bufferMax := Some bmax |}.

(** A bounded retry budget. *)
Definition bounded_config (retries : Z) : Config :=
  config_of {| opt_host := localhost; opt_port := 9000;
               opt_maxRetries := Some retries; opt_retryDelay := None;
               opt_maxBackoff := None; opt_bufferMax := None |}.

(** The instance right after construction, [socket.connect] not throwing. *)
Definition fresh (cfg : Config) : TcpTransport :=
  fst (_connect cfg fields_init false).

(** The ['error'] emit of every failed write returns. *)
Definition handled (write_throws emit_throws : nat -> bool) : Prop :=
  forall k : nat, write_throws k = true -> emit_throws k = false.

Definition never : nat -> bool := fun _ => false.
Definition always : nat -> bool := fun _ => true.
Definition first_only : nat -> bool := fun k => Nat.eqb k 0.

(** The state a run from [t] ends in ([t] itself if the run gets stuck). *)
Definition state_after (fuel : nat) (cfg : Config) (t : TcpTransport)
    (es : list Event) : TcpTransport :=
  match run fuel cfg t es with
  | Some (t', _) => t'
  | None => t
  end.

(** [bufferMax = 1]; connected, and one record already re-queued after a
    failed write. *)
Definition full_connected : TcpTransport :=
  state_after 1 (test_config 1) (fresh (test_config 1))
    [SocketConnect never never; CallLog "a" true false].

(** [bufferMax = 1]; not connected, one record buffered (the situation of
    the repository's test 'emits buffer overflow error'). *)
Definition full_disconnected : TcpTransport :=
  state_after 1 (test_config 1) (fresh (test_config 1))
    [CallLog "a" false false].

(** What every handler maintains about the buffer: at most [bufferMax]
    records, none of them the empty string. *)
Definition buffer_inv (cfg : Config) (b : list string) : Prop :=
  Z.of_nat (List.length b) <= bufferMax cfg /\
  Forall (fun m => truthy m = true) b.

(** [this.connected && this.socket], the test of [log]. *)
Definition can_write (t : TcpTransport) : bool :=
  connected t && defined (socket t).

(** [socket.write] returning normally for each of [ms], in order. *)
Definition write_all (ms : list string) (s : Net.Socket) : Net.Socket :=
  fold_left (fun s' m => Net.write m s') ms s.

(** Write failures are transient: from the [n]-th call on, [socket.write]
    returns normally. *)
Definition settles (w : nat -> bool) (n : nat) : Prop :=
  forall j : nat, (n <= j)%nat -> w j = false.

(** [bufferMax = 2]; two records buffered while the first connect attempt
    is in flight (the situation of the test 'buffers messages when
    disconnected'). *)
Definition two_buffered : TcpTransport :=
  state_after 1 (test_config 2) (fresh (test_config 2))
    [CallLog "a" false false; CallLog "b" false false].

(** One record buffered, then [close()] while the first connect attempt is
    still in flight. *)
Definition closed_in_flight : TcpTransport :=
  state_after 1 (test_config 2) (fresh (test_config 2))
    [CallLog "a" false false; CallClose].

(** ** Observations used by the further properties *)

(** Is the callback of the stored timer handle still to run? *)
Definition timer_pending (t : TcpTransport) : bool :=
  match reconnectTimer t with
  | Some h => timeout_pending h
  | None => false
  end.

(** Is the callback given to [socket.end] still to run? *)
Definition end_pending (t : TcpTransport) : bool :=
  match socket t with
  | Some s => Net.ended s
  | None => false
  end.

(** What has been passed to [write] on the socket of [t], the call
    returning. *)
Definition written_of (t : TcpTransport) : list string :=
  match socket t with
  | Some s => Net.written s
  | None => []
  end.



(** The ['reconnecting'] notifications in a trace of effects. *)
Definition reconnect_announcements (effs : list Effect) : nat :=
  List.length (filter (fun x => match x with
                                | Emit (Reconnecting _ _) => true
                                | _ => false
                                end) effs).

(** The calls of [log]'s callback in a trace of effects. *)
Definition callbacks (effs : list Effect) : nat :=
  List.length (filter (fun x => match x with
                                | Callback => true
                                | _ => false
                                end) effs).

(** The error reports in a trace of effects. *)
Definition error_reports (effs : list Effect) : nat :=
  List.length (filter (fun x => match x with
                                | Emit (Error _) => true
                                | _ => false
                                end) effs).

Definition is_timer (e : Event) : bool :=
  match e with
  | TimerFires _ => true
  | _ => false
  end.

Definition is_log (e : Event) : bool :=
  match e with
  | CallLog _ _ _ => true
  | _ => false
  end.

(** What the handlers maintain about the retry counter, the timer and the
    end callback: a bounded budget is never overdrawn; a pending timer means
    there is budget left; a closing transport has no pending timer; and the
    end callback is pending only on a closing transport. *)
Definition lifecycle_inv (cfg : Config) (t : TcpTransport) : Prop :=
  (0 <= maxRetries cfg -> Z.of_nat (retryCount t) <= maxRetries cfg) /\
  (0 <= maxRetries cfg -> timer_pending t = true ->
   Z.of_nat (retryCount t) < maxRetries cfg) /\
  (closing t = true -> timer_pending t = false) /\
  (closing t = false -> end_pending t = false).

(** A configuration of the tests with a retry budget. *)
Definition budget_config (retries : Z) : Config :=
  config_of {| opt_host := localhost; opt_port := 9000;
               opt_maxRetries := Some retries; opt_retryDelay := Some 10;
               opt_maxBackoff := Some 50; opt_bufferMax := Some 2 |}.

(** Options that give only the two required fields. *)
Definition required_only (h : string) (p : Z) : TcpTransportOptions :=
  {| opt_host := h; opt_port := p; opt_maxRetries := None;
     opt_retryDelay := None; opt_maxBackoff := None; opt_bufferMax := None |}.

(** * Properties *)

(** From [Some (f x) = Some (t', effs)], replace [t'] by [fst (f x)]. *)
Ltac result_of H :=
  first [ injection H as <- _
        | injection H as H; apply (f_equal fst) in H; cbn [fst] in H;
          rewrite <- H; clear H ].

(** Case analysis on the two guards of [_scheduleReconnect]. *)
Ltac by_guards cfg t :=
  unfold _scheduleReconnect;
  destruct (closing t) eqn:?; cbn;
  [ | destruct (retries_exhausted cfg t) eqn:?; cbn ].

(** ** [_scheduleReconnect] *)

Section ScheduleReconnect.

Variable cfg : Config.

Lemma scheduleReconnect_closing (t : TcpTransport) :
  closing t = true -> _scheduleReconnect cfg t = (t, []).
Proof. intros H. unfold _scheduleReconnect. now rewrite H. Qed.

Lemma scheduleReconnect_exhausted (t : TcpTransport) :
  retries_exhausted cfg t = true -> _scheduleReconnect cfg t = (t, []).
Proof.
  intros H. unfold _scheduleReconnect. rewrite H. now destruct (closing t).
Qed.

Lemma scheduleReconnect_arms (t : TcpTransport) :
  closing t = false ->
  retries_exhausted cfg t = false ->
  _scheduleReconnect cfg t =
    (set_reconnectTimer
       (Some {| timeout_delay := backoff_delay cfg (retryCount t);
                timeout_pending := true |}) t,
     [Emit (Reconnecting (backoff_delay cfg (retryCount t))
                         (Z.of_nat (retryCount t) + 1))]).
Proof. intros Hc He. unfold _scheduleReconnect. now rewrite Hc, He. Qed.

(** Whatever it does, [_scheduleReconnect] writes only [reconnectTimer]. *)
Lemma scheduleReconnect_frame (t : TcpTransport) :
  let t' := fst (_scheduleReconnect cfg t) in
  buffer t' = buffer t /\ retryCount t' = retryCount t /\
  connected t' = connected t /\ closing t' = closing t /\
  socket t' = socket t.
Proof.
  cbv zeta. unfold _scheduleReconnect.
  destruct (closing t) eqn:Hc; [cbn; auto|].
  destruct (retries_exhausted cfg t); cbn; auto.
Qed.

Lemma exhausted_iff (t : TcpTransport) :
  retries_exhausted cfg t = true <->
  maxRetries cfg >= 0 /\ Z.of_nat (retryCount t) >= maxRetries cfg.
Proof.
  unfold retries_exhausted. rewrite andb_true_iff, !Z.geb_le. lia.
Qed.

Lemma double_overflow_pos : 0 < double_overflow.
Proof. reflexivity. Qed.

(** For a positive [retryDelay] the delay is the integer formula: no
    product is [NaN] or negative. *)
Lemma backoff_delay_positive (n : nat) :
  0 < retryDelay cfg ->
  backoff_delay cfg n =
    Ms (Z.min (retryDelay cfg * 2 ^ Z.of_nat n) (maxBackoff cfg)).
Proof.
  intros Hd. unfold backoff_delay.
  assert (E0 : (retryDelay cfg =? 0) = false) by (apply Z.eqb_neq; lia).
  assert (E1 : (retryDelay cfg <? 0) = false) by (apply Z.ltb_ge; lia).
  now rewrite E0, E1.
Qed.

(** The first delay is [min retryDelay maxBackoff], whatever the options. *)
Lemma backoff_delay_first :
  backoff_delay cfg 0 = Ms (Z.min (retryDelay cfg) (maxBackoff cfg)).
Proof.
  unfold backoff_delay. cbn [Nat.leb Z.of_nat Z.pow].
  rewrite andb_false_r, Z.mul_1_r.
  destruct ((retryDelay cfg <? 0) && (- double_overflow <? retryDelay cfg)
            && (retryDelay cfg <=? - double_overflow)) eqn:E; [|reflexivity].
  apply andb_true_iff in E. destruct E as [E E3].
  apply andb_true_iff in E. destruct E as [_ E2].
  apply Z.ltb_lt in E2. apply Z.leb_le in E3. lia.
Qed.

(** With [retryDelay = 0] the product is [0 * Infinity] from the 1024th
    attempt on, and the delay is [NaN]. *)
Lemma backoff_delay_nan (n : nat) :
  retryDelay cfg = 0 -> (1024 <= n)%nat -> backoff_delay cfg n = NaN.
Proof.
  intros Hd Hn. unfold backoff_delay. rewrite Hd.
  apply Nat.leb_le in Hn. now rewrite Hn.
Qed.



End ScheduleReconnect.

(** C7. [_scheduleReconnect] does nothing when the transport is closing,
    and nothing when [maxRetries >= 0] and [retryCount >= maxRetries]: the
    fields are unchanged (no timer is armed) and nothing at all is emitted
    (no notification, no error). *)
Theorem scheduleReconnect_noop (cfg : Config) (t : TcpTransport) :
  closing t = true \/
  (maxRetries cfg >= 0 /\ Z.of_nat (retryCount t) >= maxRetries cfg) ->
  _scheduleReconnect cfg t = (t, []).
Proof.
  intros [Hc | He].
  - now apply scheduleReconnect_closing.
  - apply scheduleReconnect_exhausted. now apply exhausted_iff.
Qed.

(** After three failed attempts with [maxRetries = 3] a socket error arms
    no timer and emits nothing. *)
Lemma scheduleReconnect_noop_witness :
  (closing (set_retryCount 3 (fresh (bounded_config 3))) = true \/
   (maxRetries (bounded_config 3) >= 0 /\
    Z.of_nat (retryCount (set_retryCount 3 (fresh (bounded_config 3))))
      >= maxRetries (bounded_config 3))) /\
  _scheduleReconnect (bounded_config 3)
      (set_retryCount 3 (fresh (bounded_config 3)))
    = (set_retryCount 3 (fresh (bounded_config 3)), []).
Proof.
  split.
  - right. simpl. lia.
  - apply (scheduleReconnect_noop (bounded_config 3)
             (set_retryCount 3 (fresh (bounded_config 3)))).
    right. simpl. lia.
Defined.



(** The same computation with [retryDelay = 0]: from the 1024th failure in
    a row on, the delay the code computes is [NaN], not 0. *)
Lemma zero_retryDelay_overflows :
  snd (_scheduleReconnect
         (config_of {| opt_host := localhost; opt_port := 9000;
                       opt_maxRetries := None; opt_retryDelay := Some 0;
                       opt_maxBackoff := None; opt_bufferMax := None |})
         (set_retryCount 1024 fields_init)) =
  [Emit (Reconnecting NaN 1025)].
Proof. reflexivity. Qed.

(** ** Runs and reachability *)

Lemma run_steps (fuel : nat) (cfg : Config) (es : list Event) :
  forall t t' effs,
    run fuel cfg t es = Some (t', effs) -> steps cfg t es t' effs.
Proof.
  induction es as [|e es IH]; intros t t' effs H; cbn in H.
  - injection H as <- <-. constructor.
  - destruct (enabled e t) eqn:He; [|discriminate].
    destruct (handle fuel cfg t e) as [[t1 effs1]|] eqn:Hh; [|discriminate].
    destruct (run fuel cfg t1 es) as [[t2 effs2]|] eqn:Hr; [|discriminate].
    injection H as <- <-.
    econstructor; [econstructor; eassumption | now apply IH].
Qed.

Lemma steps_reachable (cfg : Config) (t t' : TcpTransport)
    (es : list Event) (effs : list Effect) :
  steps cfg t es t' effs -> reachable cfg t -> reachable cfg t'.
Proof.
  induction 1 as [|t e es t1 t2 effs1 effs2 Hs _ IH]; intros Hr; [exact Hr|].
  apply IH. eapply reachable_step; eassumption.
Qed.

Lemma fresh_reachable (cfg : Config) : reachable cfg (fresh cfg).
Proof. apply reachable_new. Qed.

Lemma state_after_reachable (fuel : nat) (cfg : Config) (es : list Event) :
  reachable cfg (state_after fuel cfg (fresh cfg) es).
Proof.
  unfold state_after.
  destruct (run fuel cfg (fresh cfg) es) as [[t' effs]|] eqn:Hr.
  - eapply steps_reachable; [eapply run_steps; eassumption|].
    apply fresh_reachable.
  - apply fresh_reachable.
Qed.

(** ** [_safeWrite] *)

Section SafeWrite.

Variable cfg : Config.

Lemma scheduleReconnect_effects_buffer (b : list string) (t : TcpTransport) :
  snd (_scheduleReconnect cfg (set_buffer b t)) =
  snd (_scheduleReconnect cfg t).
Proof.
  unfold _scheduleReconnect, retries_exhausted. cbn.
  destruct (closing t); [reflexivity|].
  now destruct ((maxRetries cfg >=? 0) &&
                (Z.of_nat (retryCount t) >=? maxRetries cfg)).
Qed.

(** The failure path of [_safeWrite] when the ['error'] emit returns,
    field by field. *)
Lemma safeWrite_throws (t : TcpTransport) (message : string) :
  socket t <> None ->
  let r := _safeWrite cfg t message true false in
  buffer (fst r) = (if occupancy t <? bufferMax cfg
                    then message :: buffer t else buffer t) /\
  retryCount (fst r) = retryCount t /\
  connected (fst r) = connected t /\
  closing (fst r) = closing t /\
  socket (fst r) = socket t /\
  snd r = Emit (Error WriteError) :: snd (_scheduleReconnect cfg t).
Proof.
  intros Hs. cbv zeta. unfold _safeWrite.
  destruct (socket t) as [s|] eqn:Es; [|congruence].
  set (t1 := if occupancy t <? bufferMax cfg
             then set_buffer (message :: buffer t) t else t).
  pose proof (scheduleReconnect_frame cfg t1) as F. cbv zeta in F.
  assert (E : snd (_scheduleReconnect cfg t1) =
              snd (_scheduleReconnect cfg t)).
  { subst t1. destruct (occupancy t <? bufferMax cfg); [|reflexivity].
    apply scheduleReconnect_effects_buffer. }
  destruct (_scheduleReconnect cfg t1) as [t2 effs]. cbn in *.
  destruct F as (Fb & Fr & Fc & Fcl & Fs).
  rewrite Fb, Fr, Fc, Fcl, Fs, E. subst t1.
  destruct (occupancy t <? bufferMax cfg); cbn; rewrite ?Es;
    repeat split.
Qed.

(** The failure path when the ['error'] emit throws: nothing after the
    emit is run. *)
Lemma safeWrite_emit_throws (t : TcpTransport) (message : string) :
  socket t <> None ->
  _safeWrite cfg t message true true =
    (t, [Emit (Error WriteError); Throw WriteError]).
Proof.
  intros Hs. unfold _safeWrite. now destruct (socket t); [|congruence].
Qed.

(** The success path of [_safeWrite]. *)
Lemma safeWrite_returns (t : TcpTransport) (message : string)
    (s : Net.Socket) (e : bool) :
  socket t = Some s ->
  _safeWrite cfg t message false e =
    (set_socket (Some (Net.write message s)) t, []).
Proof. intros Hs. unfold _safeWrite. now rewrite Hs. Qed.

Lemma safeWrite_no_socket (t : TcpTransport) (message : string)
    (w e : bool) :
  socket t = None -> _safeWrite cfg t message w e = (t, []).
Proof. intros Hs. unfold _safeWrite. now rewrite Hs. Qed.

Lemma scheduleReconnect_returns (t : TcpTransport) :
  threw (snd (_scheduleReconnect cfg t)) = false.
Proof.
  unfold _scheduleReconnect.
  destruct (closing t); [reflexivity|].
  now destruct (retries_exhausted cfg t).
Qed.

(** [_safeWrite] ends by an exception exactly when both the write and the
    emit throw. *)
Lemma safeWrite_threw (t : TcpTransport) (message : string) (w e : bool) :
  threw (snd (_safeWrite cfg t message w e)) =
  defined (socket t) && w && e.
Proof.
  destruct (socket t) as [s|] eqn:Es.
  - assert (Hs : socket t <> None) by congruence.
    destruct w; [|now rewrite (safeWrite_returns t message s e Es)].
    destruct e; [now rewrite (safeWrite_emit_throws t message Hs)|].
    destruct (safeWrite_throws t message Hs) as (_ & _ & _ & _ & _ & E).
    rewrite E. cbn. apply scheduleReconnect_returns.
  - now rewrite safeWrite_no_socket.
Qed.

End SafeWrite.




(** ** [log] *)

Section Log.

Variable cfg : Config.

Lemma wire_truthy (info : string) : truthy (wire info) = true.
Proof. unfold wire. induction info as [|c info IH]; reflexivity. Qed.

Lemma log_buffers (t : TcpTransport) (info : string) (w e : bool) :
  can_write t = false ->
  occupancy t < bufferMax cfg ->
  log cfg t info w e =
    (set_buffer (buffer t ++ [wire info]) t,
     [SetImmediate (Logged info); Callback]).
Proof.
  unfold can_write, log. intros Hc Ho. rewrite Hc.
  destruct (occupancy t >=? bufferMax cfg) eqn:E; [|reflexivity].
  apply Z.geb_le in E. lia.
Qed.

Lemma log_overflows (t : TcpTransport) (info : string) (w e : bool) :
  can_write t = false ->
  bufferMax cfg <= occupancy t ->
  log cfg t info w e =
    (t, [SetImmediate (Logged info); Emit (Error BufferOverflow);
         if e then Throw BufferOverflow else Callback]).
Proof.
  unfold can_write, log. intros Hc Ho. rewrite Hc.
  destruct (occupancy t >=? bufferMax cfg) eqn:E; [now destruct e|].
  rewrite Z.geb_leb in E. apply Z.leb_gt in E. lia.
Qed.

Lemma log_writes (t : TcpTransport) (info : string) (s : Net.Socket)
    (e : bool) :
  connected t = true ->
  socket t = Some s ->
  log cfg t info false e =
    (set_socket (Some (Net.write (wire info) s)) t,
     [SetImmediate (Logged info); Callback]).
Proof.
  intros Hc Hs. unfold log. rewrite Hc, Hs. cbn [andb defined].
  now rewrite (safeWrite_returns cfg t (wire info) s e Hs).
Qed.

Lemma log_write_fails (t : TcpTransport) (info : string) :
  can_write t = true ->
  log cfg t info true false =
    (fst (_safeWrite cfg t (wire info) true false),
     SetImmediate (Logged info)
       :: snd (_safeWrite cfg t (wire info) true false) ++ [Callback]).
Proof.
  unfold can_write, log. intros Hc. rewrite Hc.
  pose proof (safeWrite_threw cfg t (wire info) true false) as H.
  rewrite andb_false_r in H.
  destruct (_safeWrite cfg t (wire info) true false). cbn [snd] in H.
  now rewrite H.
Qed.

Lemma log_write_fails_throws (t : TcpTransport) (info : string) :
  can_write t = true ->
  log cfg t info true true =
    (t, [SetImmediate (Logged info); Emit (Error WriteError);
         Throw WriteError]).
Proof.
  unfold can_write, log. intros Hc. rewrite Hc.
  rewrite safeWrite_emit_throws; [reflexivity|].
  apply andb_true_iff in Hc. destruct Hc as [_ Hc].
  destruct (socket t); [congruence | discriminate].
Qed.

Lemma scheduleReconnect_logs_nothing (t : TcpTransport) :
  logged_of (snd (_scheduleReconnect cfg t)) = [].
Proof.
  unfold _scheduleReconnect.
  destruct (closing t); [reflexivity|].
  now destruct (retries_exhausted cfg t).
Qed.

Lemma safeWrite_logs_nothing (t : TcpTransport) (message : string)
    (w e : bool) :
  logged_of (snd (_safeWrite cfg t message w e)) = [].
Proof.
  destruct (socket t) as [s|] eqn:Es.
  - destruct w.
    + assert (Hs : socket t <> None) by congruence.
      destruct e; [now rewrite (safeWrite_emit_throws cfg t message Hs)|].
      destruct (safeWrite_throws cfg t message Hs) as (_ & _ & _ & _ & _ & E).
      rewrite E. cbn. apply scheduleReconnect_logs_nothing.
    + now rewrite (safeWrite_returns cfg t message s e Es).
  - now rewrite safeWrite_no_socket.
Qed.

Lemma logged_of_app (xs ys : list Effect) :
  logged_of (xs ++ ys) = logged_of xs ++ logged_of ys.
Proof. unfold logged_of. apply flat_map_app. Qed.

End Log.

(** C8, as stated, fails: the record dropped with the overflow error still
    gets its ['logged'] notification scheduled. *)
Lemma log_overflow_still_logged :
  reachable (test_config 1) full_disconnected /\
  snd (log (test_config 1) full_disconnected "b" false false) =
    [SetImmediate (Logged "b"); Emit (Error BufferOverflow); Callback] /\
  logged_of (snd (log (test_config 1) full_disconnected "b" false false))
    <> [].
Proof.
  split; [apply state_after_reachable|].
  split; [reflexivity | vm_compute; discriminate].
Qed.

(** C8, amended.  Every call of [log] schedules exactly one ['logged']
    notification, carrying its record: whether the record is written,
    buffered, re-queued or dropped with the overflow error, and whether or
    not an ['error'] emit throws afterwards. *)
Theorem log_always_logged
    (cfg : Config) (t : TcpTransport) (info : string)
    (write_throws emit_throws : bool) :
  logged_of (snd (log cfg t info write_throws emit_throws)) = [info].
Proof.
  unfold log.
  destruct (connected t && defined (socket t)).
  - pose proof (safeWrite_logs_nothing cfg t (wire info) write_throws
                  emit_throws) as H.
    destruct (_safeWrite cfg t (wire info) write_throws emit_throws)
      as [t1 effs].
    cbn [snd] in *.
    change (logged_of ([SetImmediate (Logged info)]
                         ++ (if threw effs then effs
                             else effs ++ [Callback])) = [info]).
    destruct (threw effs); rewrite !logged_of_app, H; reflexivity.
  - destruct (occupancy t >=? bufferMax cfg); [|reflexivity].
    now destruct emit_throws.
Qed.

(** ** [close] *)

(** [close] sets [closing], forgets the timer and ends the socket; it
    emits nothing itself and leaves the other fields alone. *)
Lemma close_fields (t : TcpTransport) :
  buffer (fst (close t)) = buffer t /\
  retryCount (fst (close t)) = retryCount t /\
  connected (fst (close t)) = connected t /\
  closing (fst (close t)) = true /\
  reconnectTimer (fst (close t)) = None /\
  socket (fst (close t)) = option_map Net.end_ (socket t) /\
  snd (close t) = [].
Proof.
  destruct t as [b r c cl [h|] [s|]]; cbn; repeat split.
Qed.

(** ** The buffer invariant *)

Section BufferInvariant.

Variable cfg : Config.

Lemma buffer_inv_tail (m : string) (b : list string) :
  buffer_inv cfg (m :: b) -> buffer_inv cfg b.
Proof.
  intros [Hl Hf]. split.
  - cbn [List.length] in Hl. lia.
  - now inversion Hf.
Qed.

Lemma scheduleReconnect_inv (t : TcpTransport) :
  buffer_inv cfg (buffer t) ->
  buffer_inv cfg (buffer (fst (_scheduleReconnect cfg t))).
Proof.
  intros H. destruct (scheduleReconnect_frame cfg t) as [E _].
  now rewrite E.
Qed.

Lemma connect_buffer (t : TcpTransport) (c : bool) :
  buffer (fst (_connect cfg t c)) = buffer t.
Proof.
  unfold _connect. destruct c; [|reflexivity].
  now destruct (scheduleReconnect_frame cfg
                  (set_socket
                     (Some (Net.setKeepAlive 60000 Net.new_Socket)) t)).
Qed.

Lemma safeWrite_inv (t : TcpTransport) (message : string) (w e : bool) :
  truthy message = true ->
  buffer_inv cfg (buffer t) ->
  buffer_inv cfg (buffer (fst (_safeWrite cfg t message w e))).
Proof.
  intros Hm H. destruct (socket t) as [s|] eqn:Es.
  - destruct w.
    + assert (Hs : socket t <> None) by congruence.
      destruct e; [now rewrite (safeWrite_emit_throws cfg t message Hs)|].
      destruct (safeWrite_throws cfg t message Hs) as [E _]. rewrite E.
      destruct (occupancy t <? bufferMax cfg) eqn:Ho; [|exact H].
      apply Z.ltb_lt in Ho. unfold occupancy in Ho. destruct H as [Hl Hf].
      split; [cbn [List.length]; lia | now constructor].
    + now rewrite (safeWrite_returns cfg t message s e Es).
  - now rewrite safeWrite_no_socket.
Qed.

Lemma flush_loop_inv (w e : nat -> bool) (fuel : nat) :
  forall k t t' effs,
    buffer_inv cfg (buffer t) ->
    flush_loop fuel cfg w e k t = Some (t', effs) ->
    buffer_inv cfg (buffer t').
Proof.
  induction fuel as [|fuel IH]; intros k t t' effs H Hf; cbn in Hf.
  - destruct (flush_guard t); [discriminate|]. now injection Hf as <- _.
  - destruct (flush_guard t); [|now injection Hf as <- _].
    destruct (buffer t) as [|m rest] eqn:Eb;
      [injection Hf as <- _; now rewrite Eb|].
    pose proof (buffer_inv_tail m rest H) as Ht.
    destruct (truthy m) eqn:Em.
    + pose proof (safeWrite_inv (set_buffer rest t) m (w k) (e k) Em Ht)
        as Hw.
      destruct (_safeWrite cfg (set_buffer rest t) m (w k) (e k))
        as [t2 e2].
      destruct (threw e2); [injection Hf as <- _; exact Hw|].
      destruct (flush_loop fuel cfg w e (S k) t2) as [[t3 e3]|] eqn:Hl;
        [|discriminate].
      injection Hf as <- _. exact (IH (S k) t2 t3 e3 Hw Hl).
    + exact (IH k (set_buffer rest t) t' effs Ht Hf).
Qed.

Lemma log_inv (t : TcpTransport) (info : string) (w e : bool) :
  buffer_inv cfg (buffer t) ->
  buffer_inv cfg (buffer (fst (log cfg t info w e))).
Proof.
  intros H. unfold log.
  destruct (connected t && defined (socket t)).
  - pose proof (safeWrite_inv t (wire info) w e (wire_truthy info) H) as Hw.
    now destruct (_safeWrite cfg t (wire info) w e).
  - destruct (occupancy t >=? bufferMax cfg) eqn:Ho; [exact H|].
    rewrite Z.geb_leb in Ho. apply Z.leb_gt in Ho. unfold occupancy in Ho.
    destruct H as [Hl Hf]. cbn [fst buffer set_buffer]. split.
    + rewrite length_app. cbn [List.length]. lia.
    + apply Forall_app. split; [exact Hf|].
      constructor; [apply wire_truthy | constructor].
Qed.

Lemma handle_inv (fuel : nat) (t t' : TcpTransport) (e : Event)
    (effs : list Effect) :
  buffer_inv cfg (buffer t) ->
  handle fuel cfg t e = Some (t', effs) ->
  buffer_inv cfg (buffer t').
Proof.
  intros H Hh. destruct e; cbn in Hh.
  - unfold on_connect, _flushBuffer in Hh.
    destruct (flush_loop fuel cfg write_throws emit_throws 0
                (set_retryCount 0 (set_connected true t)))
      as [[t3 e3]|] eqn:Hl; [|discriminate].
    injection Hh as <- _.
    exact (flush_loop_inv write_throws emit_throws fuel 0
             (set_retryCount 0 (set_connected true t)) t3 e3 H Hl).
  - result_of Hh. unfold on_error. now apply scheduleReconnect_inv.
  - result_of Hh. unfold on_close.
    destruct (negb (closing (set_connected false t))); [|exact H].
    pose proof (scheduleReconnect_inv (set_connected false t) H) as Hs.
    now destruct (_scheduleReconnect cfg (set_connected false t)).
  - result_of Hh. unfold on_timeout.
    apply scheduleReconnect_inv. now destruct (socket t).
  - result_of Hh. unfold on_timer.
    rewrite connect_buffer. now destruct (reconnectTimer t).
  - result_of Hh. unfold on_end. now destruct (socket t).
  - result_of Hh. now apply log_inv.
  - result_of Hh. destruct (close_fields t) as [E _]. now rewrite E.
Qed.

(** The invariant holds between any two handlers, for a non-negative
    [bufferMax]. *)
Lemma reachable_inv (t : TcpTransport) :
  0 <= bufferMax cfg -> reachable cfg t -> buffer_inv cfg (buffer t).
Proof.
  intros H0. induction 1 as [c | t t' e effs _ IH Hs].
  - rewrite connect_buffer. split; [cbn; lia | constructor].
  - destruct Hs as [e fuel t' effs _ Hh]. exact (handle_inv _ _ _ _ _ IH Hh).
Qed.

End BufferInvariant.

(** C4. For a non-negative [bufferMax], a reachable state [t0] never holds
    more than [bufferMax] records; and a [log] issued on a state [t] that is
    not connected and whose buffer is full (occupancy equal to [bufferMax],
    or beyond) emits the overflow error exactly once and changes no field:
    the record is dropped.  (What follows the report depends on the emit:
    if it returns, the callback is called; if it throws, the exception
    leaves [log].) *)
Theorem buffer_bounded_overflow_reported
    (cfg : Config) (t0 t : TcpTransport) (info : string)
    (write_throws emit_throws : bool) :
  0 <= bufferMax cfg ->
  reachable cfg t0 ->
  can_write t = false ->
  bufferMax cfg <= occupancy t ->
  occupancy t0 <= bufferMax cfg /\
  fst (log cfg t info write_throws emit_throws) = t /\
  overflow_reports (snd (log cfg t info write_throws emit_throws)) = 1%nat /\
  snd (log cfg t info write_throws emit_throws) =
    [SetImmediate (Logged info); Emit (Error BufferOverflow);
     if emit_throws then Throw BufferOverflow else Callback].
Proof.
  intros H0 Hr Hc Ho. split.
  - now destruct (reachable_inv cfg t0 H0 Hr).
  - rewrite (log_overflows cfg t info write_throws emit_throws Hc Ho).
    destruct emit_throws; repeat split.
Qed.

(** The scenario of the test 'emits buffer overflow error': the second
    record is reported and dropped, and the emit throws (the test catches
    the exception). *)
Lemma buffer_bounded_overflow_witness :
  occupancy full_connected <= bufferMax (test_config 1) /\
  fst (log (test_config 1) full_disconnected "b" false true)
    = full_disconnected /\
  overflow_reports
    (snd (log (test_config 1) full_disconnected "b" false true)) = 1%nat /\
  snd (log (test_config 1) full_disconnected "b" false true) =
    [SetImmediate (Logged "b"); Emit (Error BufferOverflow);
     Throw BufferOverflow].
Proof.
  apply (buffer_bounded_overflow_reported (test_config 1) full_connected
           full_disconnected "b" false true).
  - simpl. lia.
  - apply state_after_reachable.
  - reflexivity.
  - vm_compute. discriminate.
Defined.

(** ** The flush loop *)

Section Flush.

Variable cfg : Config.

Lemma written_write_all (ms : list string) :
  forall s, Net.written (write_all ms s) = Net.written s ++ ms.
Proof.
  induction ms as [|m ms IH]; intros s; cbn.
  - now rewrite app_nil_r.
  - unfold write_all in IH. rewrite IH. cbn. now rewrite <- app_assoc.
Qed.

Lemma threw_app (xs ys : list Effect) :
  threw (xs ++ ys) = threw xs || threw ys.
Proof. unfold threw. apply existsb_app. Qed.

(** What [_safeWrite] leaves alone, whatever the write and the emit do. *)
Lemma safeWrite_frame (t : TcpTransport) (message : string) (w e : bool) :
  let t' := fst (_safeWrite cfg t message w e) in
  retryCount t' = retryCount t /\
  connected t' = connected t /\
  closing t' = closing t /\
  defined (socket t') = defined (socket t) /\
  (List.length (buffer t')
   <= List.length (buffer t) + (if w then 1 else 0))%nat.
Proof.
  cbv zeta. destruct (socket t) as [s|] eqn:Es.
  - destruct w.
    + assert (Hs : socket t <> None) by congruence.
      destruct e.
      { rewrite (safeWrite_emit_throws cfg t message Hs). cbn [fst].
        repeat split; try lia; now rewrite Es. }
      destruct (safeWrite_throws cfg t message Hs)
        as (Eb & Er & Ec & Ecl & Eso & _).
      rewrite Eb, Er, Ec, Ecl, Eso.
      destruct (occupancy t <? bufferMax cfg); cbn [List.length];
        repeat split; try lia; now rewrite Es.
    + rewrite (safeWrite_returns cfg t message s e Es). cbn.
      repeat split. lia.
  - rewrite safeWrite_no_socket by exact Es. cbn [fst].
    repeat split; try lia; now rewrite Es.
Qed.

Lemma flush_guard_false_nil (t : TcpTransport) :
  buffer t = [] -> flush_guard t = false.
Proof. intros E. unfold flush_guard. now rewrite E. Qed.

(** With transient write failures the loop terminates (an exception ends
    it at once), and it only touches the buffer, the socket and the
    timer. *)
Lemma flush_loop_terminates (w e : nat -> bool) (n : nat) :
  settles w n ->
  forall fuel k t,
    ((n - k) + List.length (buffer t) <= fuel)%nat ->
    exists t' effs,
      flush_loop fuel cfg w e k t = Some (t', effs) /\
      retryCount t' = retryCount t /\
      connected t' = connected t /\
      closing t' = closing t /\
      defined (socket t') = defined (socket t).
Proof.
  intros Hw. induction fuel as [|fuel IH]; intros k t Hfuel.
  - assert (Eb : buffer t = [])
      by (destruct (buffer t); [easy | cbn in Hfuel; lia]).
    cbn. rewrite (flush_guard_false_nil t Eb). now exists t, [].
  - cbn. destruct (flush_guard t); [|now exists t, []].
    destruct (buffer t) as [|m rest] eqn:Eb; [now exists t, []|].
    cbn [List.length] in Hfuel.
    destruct (truthy m).
    + pose proof (safeWrite_frame (set_buffer rest t) m (w k) (e k)) as F.
      cbv zeta in F.
      destruct (_safeWrite cfg (set_buffer rest t) m (w k) (e k))
        as [t2 e2].
      cbn [fst set_buffer buffer retryCount connected closing socket] in F.
      destruct F as (Fr & Fc & Fcl & Fs & Fl).
      destruct (threw e2); [now exists t2, e2|].
      assert (Hm : ((n - S k) + List.length (buffer t2) <= fuel)%nat).
      { destruct (w k) eqn:Ewk.
        - assert (k < n)%nat.
          { destruct (Nat.lt_ge_cases k n) as [L|G]; [exact L|].
            rewrite (Hw k G) in Ewk. discriminate. }
          lia.
        - lia. }
      destruct (IH (S k) t2 Hm) as (t3 & e3 & E3 & Gr & Gc & Gcl & Gs).
      rewrite E3. exists t3, (e2 ++ e3).
      repeat split; congruence.
    + assert (Hm : ((n - k) + List.length (buffer (set_buffer rest t))
                    <= fuel)%nat) by (cbn; lia).
      destruct (IH k (set_buffer rest t) Hm)
        as (t3 & e3 & E3 & Gr & Gc & Gcl & Gs).
      exists t3, e3. repeat split; assumption.
Qed.

(** When no write throws, the loop writes the whole buffer, in order. *)
Lemma flush_loop_writes_all (w e : nat -> bool) :
  forall fuel k t s,
    settles w k ->
    connected t = true ->
    socket t = Some s ->
    Forall (fun m => truthy m = true) (buffer t) ->
    (List.length (buffer t) <= fuel)%nat ->
    flush_loop fuel cfg w e k t =
      Some (set_socket (Some (write_all (buffer t) s)) (set_buffer [] t), []).
Proof.
  induction fuel as [|fuel IH]; intros k t s Hw Hc Hs Hb Hfuel.
  - assert (Eb : buffer t = [])
      by (destruct (buffer t); [easy | cbn in Hfuel; lia]).
    cbn. rewrite (flush_guard_false_nil t Eb), Eb. cbn.
    destruct t; cbn in Eb, Hs; subst; reflexivity.
  - cbn. destruct (buffer t) as [|m rest] eqn:Eb.
    + rewrite (flush_guard_false_nil t Eb). cbn.
      destruct t; cbn in Eb, Hs; subst; reflexivity.
    + unfold flush_guard. rewrite Eb, Hc, Hs.
      cbn [List.length Nat.eqb negb andb defined].
      inversion Hb as [|m' rest' Hm Hrest]; subst. rewrite Hm.
      rewrite (Hw k (Nat.le_refl k)).
      rewrite (safeWrite_returns cfg (set_buffer rest t) m s (e k) Hs).
      cbn [threw existsb List.length] in Hfuel |- *.
      rewrite (IH (S k) _ (Net.write m s)); cbn; auto; try lia.
      intros j Hj. apply Hw. lia.
Qed.

Lemma flush_calls_app (xs ys : list Effect) :
  flush_calls (xs ++ ys) = (flush_calls xs + flush_calls ys)%nat.
Proof. unfold flush_calls. now rewrite filter_app, length_app. Qed.

Lemma scheduleReconnect_no_flush (t : TcpTransport) :
  flush_calls (snd (_scheduleReconnect cfg t)) = 0%nat.
Proof.
  unfold _scheduleReconnect.
  destruct (closing t); [reflexivity|].
  now destruct (retries_exhausted cfg t).
Qed.

Lemma safeWrite_no_flush (t : TcpTransport) (message : string)
    (w e : bool) :
  flush_calls (snd (_safeWrite cfg t message w e)) = 0%nat.
Proof.
  destruct (socket t) as [s|] eqn:Es.
  - destruct w.
    + assert (Hs : socket t <> None) by congruence.
      destruct e; [now rewrite (safeWrite_emit_throws cfg t message Hs)|].
      destruct (safeWrite_throws cfg t message Hs) as (_ & _ & _ & _ & _ & E).
      rewrite E. cbn. apply scheduleReconnect_no_flush.
    + now rewrite (safeWrite_returns cfg t message s e Es).
  - now rewrite safeWrite_no_socket.
Qed.

Lemma flush_loop_no_flush (w e : nat -> bool) (fuel : nat) :
  forall k t t' effs,
    flush_loop fuel cfg w e k t = Some (t', effs) ->
    flush_calls effs = 0%nat.
Proof.
  induction fuel as [|fuel IH]; intros k t t' effs Hf; cbn in Hf.
  - destruct (flush_guard t); [discriminate|]. now injection Hf as _ <-.
  - destruct (flush_guard t); [|now injection Hf as _ <-].
    destruct (buffer t) as [|m rest]; [now injection Hf as _ <-|].
    destruct (truthy m).
    + pose proof (safeWrite_no_flush (set_buffer rest t) m (w k) (e k))
        as Hw.
      destruct (_safeWrite cfg (set_buffer rest t) m (w k) (e k))
        as [t2 e2].
      cbn [snd] in Hw.
      destruct (threw e2); [injection Hf as _ <-; exact Hw|].
      destruct (flush_loop fuel cfg w e (S k) t2) as [[t3 e3]|] eqn:Hl;
        [|discriminate].
      injection Hf as _ <-. rewrite flush_calls_app.
      rewrite Hw. exact (IH (S k) t2 t3 e3 Hl).
    + exact (IH k (set_buffer rest t) t' effs Hf).
Qed.

(** A failed record that fits is retried at once (its ['error'] emit
    returning): with transient failures the loop drains the whole buffer,
    in order, each record written exactly once, and ends normally. *)
Lemma flush_loop_drains (w e : nat -> bool) (n : nat) :
  settles w n ->
  handled w e ->
  forall fuel k t s,
    connected t = true ->
    socket t = Some s ->
    buffer_inv cfg (buffer t) ->
    ((n - k) + List.length (buffer t) <= fuel)%nat ->
    exists t' effs,
      flush_loop fuel cfg w e k t = Some (t', effs) /\
      threw effs = false /\
      buffer t' = [] /\
      socket t' = Some (write_all (buffer t) s).
Proof.
  intros Hw He. induction fuel as [|fuel IH]; intros k t s Hc Hs Hb Hfuel.
  - assert (Eb : buffer t = [])
      by (destruct (buffer t); [easy | cbn in Hfuel; lia]).
    cbn. rewrite (flush_guard_false_nil t Eb). exists t, [].
    rewrite Eb. cbn. auto.
  - cbn. destruct (buffer t) as [|m rest] eqn:Eb.
    + rewrite (flush_guard_false_nil t Eb). exists t, []. cbn. auto.
    + unfold flush_guard. rewrite Eb, Hc, Hs.
      cbn [List.length Nat.eqb negb andb defined].
      pose proof (buffer_inv_tail cfg m rest Hb) as Hrest.
      destruct Hb as [Hlen Hne]. inversion Hne as [|m' r' Hm _]; subst.
      rewrite Hm. cbn [List.length] in Hfuel, Hlen.
      destruct (w k) eqn:Ewk.
      * assert (Hk : (k < n)%nat).
        { destruct (Nat.lt_ge_cases k n) as [L|G]; [exact L|].
          rewrite (Hw k G) in Ewk. discriminate. }
        rewrite (He k Ewk).
        assert (Hso : socket (set_buffer rest t) <> None)
          by (cbn; congruence).
        destruct (safeWrite_throws cfg (set_buffer rest t) m Hso)
          as (Fb & _ & Fc & _ & Fs & _).
        pose proof (safeWrite_threw cfg (set_buffer rest t) m true false)
          as Ft. rewrite andb_false_r in Ft.
        assert (Ho : (occupancy (set_buffer rest t) <? bufferMax cfg) = true)
          by (apply Z.ltb_lt; unfold occupancy; cbn; lia).
        rewrite Ho in Fb.
        cbn [buffer connected socket set_buffer] in Fb, Fc, Fs.
        destruct (_safeWrite cfg (set_buffer rest t) m true false)
          as [t2 e2].
        cbn [fst snd] in Fb, Fc, Fs, Ft. rewrite Ft.
        destruct (IH (S k) t2 s) as (t' & effs & E & Et & Eb' & Es');
          [congruence | congruence | | | ].
        { rewrite Fb. split; [cbn [List.length]; lia | exact Hne]. }
        { rewrite Fb. cbn [List.length]. lia. }
        rewrite E. exists t', (e2 ++ effs). rewrite Fb in Es'.
        rewrite threw_app, Ft, Et. auto.
      * rewrite (safeWrite_returns cfg (set_buffer rest t) m s (e k) Hs).
        cbn [threw existsb].
        destruct (IH (S k) (set_socket (Some (Net.write m s))
                              (set_buffer rest t)) (Net.write m s))
          as (t' & effs & E & Et & Eb' & Es'); auto.
        { cbn. lia. }
        rewrite E. exists t', ([] ++ effs). auto.
Qed.

End Flush.

(** ** The handlers, event by event *)

Section EventLoop.

Variable cfg : Config.

(** The ['connect'] listener, in terms of the loop of the flush. *)
Lemma on_connect_inv (fuel : nat) (t t' : TcpTransport)
    (w e : nat -> bool) (effs : list Effect) :
  on_connect fuel cfg t w e = Some (t', effs) ->
  exists e3,
    flush_loop fuel cfg w e 0 (set_retryCount 0 (set_connected true t)) =
      Some (t', e3) /\
    effs = [Call_flushBuffer] ++ e3
             ++ (if threw e3 then [] else [Emit Connected]).
Proof.
  unfold on_connect, _flushBuffer. intros H.
  destruct (flush_loop fuel cfg w e 0
              (set_retryCount 0 (set_connected true t)))
    as [[t3 e3]|]; [|discriminate].
  injection H as <- <-. exists e3. split; [reflexivity|].
  change (threw (Call_flushBuffer :: e3)) with (threw e3).
  destruct (threw e3); [now rewrite app_nil_r | reflexivity].
Qed.

(** What the loop of [_flushBuffer] leaves alone when it returns. *)
Lemma flush_loop_frame (w e : nat -> bool) (fuel : nat) :
  forall k t t' effs,
    flush_loop fuel cfg w e k t = Some (t', effs) ->
    retryCount t' = retryCount t /\
    connected t' = connected t /\
    closing t' = closing t /\
    defined (socket t') = defined (socket t).
Proof.
  induction fuel as [|fuel IH]; intros k t t' effs Hf; cbn in Hf.
  - destruct (flush_guard t); [discriminate|]. injection Hf as <- _. auto.
  - destruct (flush_guard t); [|injection Hf as <- _; auto].
    destruct (buffer t) as [|m rest]; [injection Hf as <- _; auto|].
    destruct (truthy m).
    + pose proof (safeWrite_frame cfg (set_buffer rest t) m (w k) (e k)) as F.
      cbv zeta in F.
      destruct (_safeWrite cfg (set_buffer rest t) m (w k) (e k)) as [t2 e2].
      cbn [fst set_buffer retryCount connected closing socket] in F.
      destruct F as (Fr & Fc & Fcl & Fs & _).
      destruct (threw e2); [injection Hf as <- _; auto|].
      destruct (flush_loop fuel cfg w e (S k) t2) as [[t3 e3]|] eqn:Hl;
        [|discriminate].
      injection Hf as <- _.
      destruct (IH (S k) t2 t3 e3 Hl) as (Gr & Gc & Gcl & Gs).
      repeat split; congruence.
    + exact (IH k (set_buffer rest t) t' effs Hf).
Qed.

(** Once set by the constructor, [socket] stays defined. *)
Lemma handle_socket_defined (fuel : nat) (t t' : TcpTransport) (e : Event)
    (effs : list Effect) :
  defined (socket t) = true ->
  handle fuel cfg t e = Some (t', effs) ->
  defined (socket t') = true.
Proof.
  intros H Hh. destruct e; cbn in Hh.
  - unfold on_connect, _flushBuffer in Hh.
    destruct (flush_loop fuel cfg write_throws emit_throws 0
                (set_retryCount 0 (set_connected true t)))
      as [[t3 e3]|] eqn:Hl; [|discriminate].
    injection Hh as <- _.
    destruct (flush_loop_frame _ _ _ _ _ _ _ Hl) as (_ & _ & _ & Es).
    now rewrite Es.
  - result_of Hh. unfold on_error.
    destruct (scheduleReconnect_frame cfg (set_connected false t))
      as (_ & _ & _ & _ & Es).
    now rewrite Es.
  - result_of Hh. unfold on_close.
    destruct (negb (closing (set_connected false t))); [|exact H].
    destruct (scheduleReconnect_frame cfg (set_connected false t))
      as (_ & _ & _ & _ & Es).
    destruct (_scheduleReconnect cfg (set_connected false t)).
    cbn in *. now rewrite Es.
  - result_of Hh. unfold on_timeout.
    destruct (socket t) as [s|] eqn:E; [|discriminate].
    destruct (scheduleReconnect_frame cfg
                (set_socket (Some (Net.destroy s)) t))
      as (_ & _ & _ & _ & Es).
    now rewrite Es.
  - result_of Hh. unfold on_timer, _connect.
    destruct connect_throws; [|reflexivity].
    match goal with
    | |- context [_scheduleReconnect cfg ?x] =>
        destruct (scheduleReconnect_frame cfg x) as (_ & _ & _ & _ & Es)
    end.
    now rewrite Es.
  - result_of Hh. unfold on_end. now destruct (socket t).
  - result_of Hh. unfold log.
    destruct (connected t && defined (socket t)).
    + destruct (safeWrite_frame cfg t (wire info) write_throws emit_throws)
        as (_ & _ & _ & Es & _).
      destruct (_safeWrite cfg t (wire info) write_throws emit_throws).
      cbn in *. now rewrite Es.
    + now destruct (occupancy t >=? bufferMax cfg).
  - result_of Hh. destruct (close_fields t) as (_ & _ & _ & _ & _ & Es & _).
    rewrite Es. now destruct (socket t).
Qed.

Lemma reachable_socket_defined (t : TcpTransport) :
  reachable cfg t -> defined (socket t) = true.
Proof.
  induction 1 as [c | t t' e effs _ IH Hs].
  - unfold _connect. destruct c; [|reflexivity].
    match goal with
    | |- context [_scheduleReconnect cfg ?x] =>
        destruct (scheduleReconnect_frame cfg x) as (_ & _ & _ & _ & Es)
    end.
    now rewrite Es.
  - destruct Hs as [e fuel t' effs _ Hh].
    exact (handle_socket_defined _ _ _ _ _ IH Hh).
Qed.

(** While disconnected, an event other than ['connect'] leaves the
    transport disconnected, enters no flush, and changes the buffer only
    by appending the record of a [log] that fits. *)
Lemma handle_while_disconnected (fuel : nat) (t t' : TcpTransport)
    (e : Event) (effs : list Effect) :
  not_connect e = true ->
  connected t = false ->
  handle fuel cfg t e = Some (t', effs) ->
  connected t' = false /\
  flush_calls effs = 0%nat /\
  (occupancy t + Z.of_nat (List.length (sent [e])) <= bufferMax cfg ->
   buffer t' = buffer t ++ sent [e]).
Proof.
  intros Hq Hc Hh. destruct e; cbn in Hq, Hh; try discriminate.
  - injection Hh as Hh. unfold on_error in Hh.
    destruct t as [b r c cl tm so]. cbn in Hc. subst c.
    revert Hh.
    by_guards cfg (set_connected false (mkTransport b r false cl tm so));
      intros Hh; injection Hh as <- <-; cbn; rewrite app_nil_r; auto.
  - injection Hh as Hh. unfold on_close in Hh.
    destruct t as [b r c cl tm so]. cbn in Hc. subst c.
    revert Hh. unfold _scheduleReconnect. cbn.
    destruct cl; cbn;
      [ | destruct (retries_exhausted cfg
                      (set_connected false
                         (mkTransport b r false false tm so)));
          cbn ];
      intros Hh; injection Hh as <- <-; cbn; rewrite app_nil_r; auto.
  - injection Hh as Hh. unfold on_timeout in Hh.
    destruct t as [b r c cl tm [s|]]; cbn in Hc, Hh; subst c;
      revert Hh;
      match goal with
      | |- context [_scheduleReconnect cfg ?x] => by_guards cfg x
      end;
      intros Hh; injection Hh as <- <-; cbn; rewrite app_nil_r; auto.
  - injection Hh as Hh. unfold on_timer, _connect in Hh.
    destruct t as [b r c cl [h|] so]; cbn in Hc, Hh; subst c;
      destruct connect_throws; revert Hh;
      try match goal with
      | |- context [_scheduleReconnect cfg ?x] => by_guards cfg x
      end;
      intros Hh; injection Hh as <- <-; cbn; rewrite app_nil_r; auto.
  - unfold on_end in Hh. injection Hh as <- <-.
    destruct t as [b r c cl tm [s|]]; cbn in Hc; subst c;
      cbn; rewrite app_nil_r; auto.
  - injection Hh as Hh.
    assert (Hw : can_write t = false) by (unfold can_write; now rewrite Hc).
    destruct (Z.lt_ge_cases (occupancy t) (bufferMax cfg)) as [Hlt|Hge].
    + rewrite (log_buffers cfg t info write_throws emit_throws Hw Hlt)
        in Hh.
      injection Hh as <- <-. cbn. auto.
    + rewrite (log_overflows cfg t info write_throws emit_throws Hw Hge)
        in Hh.
      injection Hh as <- <-. cbn.
      repeat split; auto; [now destruct emit_throws | lia].
  - injection Hh as Hh. apply (f_equal fst) in Hh as Hf.
    apply (f_equal snd) in Hh. cbn in Hf, Hh. subst t' effs.
    destruct (close_fields t) as (Eb & _ & Ec & _ & _ & _ & Ee).
    rewrite Eb, Ec, Ee. cbn. rewrite app_nil_r. auto.
Qed.

(** A run of such events: the buffer grows by the records sent, in the
    order they were sent. *)
Lemma steps_while_disconnected (t t' : TcpTransport) (es : list Event)
    (effs : list Effect) :
  steps cfg t es t' effs ->
  Forall (fun e => not_connect e = true) es ->
  connected t = false ->
  occupancy t + Z.of_nat (List.length (sent es)) <= bufferMax cfg ->
  connected t' = false /\
  flush_calls effs = 0%nat /\
  buffer t' = buffer t ++ sent es.
Proof.
  induction 1 as [t | t e es t1 t2 effs1 effs2 Hs Hss IH];
    intros Hq Hc Ho.
  - cbn. rewrite app_nil_r. auto.
  - inversion Hq as [|e' es' Hqe Hqes]; subst.
    destruct Hs as [e fuel t1 effs1 _ Hh].
    destruct (handle_while_disconnected fuel t t1 e effs1 Hqe Hc Hh)
      as (Hc1 & Hf1 & Hb1).
    change (e :: es) with ([e] ++ es) in Ho |- *.
    unfold sent in Ho, Hb1 |- *. rewrite flat_map_app in Ho |- *.
    rewrite length_app, Nat2Z.inj_add in Ho.
    assert (Hb : buffer t1 = buffer t ++ flat_map
              (fun e0 => match e0 with
                         | CallLog info _ _ => [wire info]
                         | _ => []
                         end) [e]) by (apply Hb1; lia).
    assert (Ho1 : occupancy t1 + Z.of_nat (List.length (sent es))
                  <= bufferMax cfg).
    { unfold occupancy, sent in *. rewrite Hb, length_app, Nat2Z.inj_add. lia. }
    destruct (IH Hqes Hc1 Ho1) as (Hc2 & Hf2 & Hb2).
    repeat split; [exact Hc2 | |].
    + rewrite flush_calls_app, Hf1, Hf2. reflexivity.
    + rewrite Hb2, Hb. unfold sent. now rewrite <- app_assoc.
Qed.

(** [_flushBuffer] is entered by the ['connect'] listener, once, and by no
    other handler. *)
Lemma handle_flush_calls (fuel : nat) (t t' : TcpTransport) (e : Event)
    (effs : list Effect) :
  handle fuel cfg t e = Some (t', effs) ->
  flush_calls effs = if not_connect e then 0%nat else 1%nat.
Proof.
  intros Hh. destruct e; cbn in Hh |- *.
  - destruct (on_connect_inv _ _ _ _ _ _ Hh) as (e3 & Hl & ->).
    pose proof (flush_loop_no_flush cfg write_throws emit_throws fuel 0 _
                  t' e3 Hl) as Hn.
    rewrite !flush_calls_app, Hn. now destruct (threw e3).
  - injection Hh as Hh. apply (f_equal snd) in Hh. cbn in Hh. subst effs.
    apply scheduleReconnect_no_flush.
  - injection Hh as Hh. apply (f_equal snd) in Hh. cbn in Hh. subst effs.
    unfold on_close.
    destruct (negb (closing (set_connected false t))); [|reflexivity].
    pose proof (scheduleReconnect_no_flush cfg (set_connected false t)) as H.
    now destruct (_scheduleReconnect cfg (set_connected false t)).
  - injection Hh as Hh. apply (f_equal snd) in Hh. cbn in Hh. subst effs.
    apply scheduleReconnect_no_flush.
  - injection Hh as Hh. apply (f_equal snd) in Hh. cbn in Hh. subst effs.
    unfold on_timer, _connect. destruct connect_throws; [|reflexivity].
    apply scheduleReconnect_no_flush.
  - unfold on_end in Hh. now injection Hh as _ <-.
  - injection Hh as Hh. apply (f_equal snd) in Hh. cbn in Hh. subst effs.
    unfold log.
    destruct (connected t && defined (socket t)).
    + pose proof (safeWrite_no_flush cfg t (wire info) write_throws
                    emit_throws) as H.
      destruct (_safeWrite cfg t (wire info) write_throws emit_throws)
        as [t1 e1].
      cbn [snd] in *.
      change (flush_calls ([SetImmediate (Logged info)]
                             ++ (if threw e1 then e1
                                 else e1 ++ [Callback])) = 0%nat).
      destruct (threw e1); rewrite !flush_calls_app, H; reflexivity.
    + destruct (occupancy t >=? bufferMax cfg); [|reflexivity].
      now destruct emit_throws.
  - injection Hh as Hh. apply (f_equal snd) in Hh. cbn in Hh. subst effs.
    now destruct (close_fields t) as (_ & _ & _ & _ & _ & _ & ->).
Qed.

(** The constructor yields a reachable state. *)
Lemma new_TcpTransport_reachable (options : TcpTransportOptions)
    (connect_throws : bool) :
  cfg = config_of options ->
  reachable cfg (fst (new_TcpTransport options connect_throws)).
Proof. intros ->. apply reachable_new. Qed.

End EventLoop.

(** ** Delivery of buffered records *)

(** C5. Records sent while disconnected, each finding room in the buffer,
    are queued in the order sent.  When the connection then succeeds, the
    listener returns (write failures being transient, and the ['error']
    emit of each returning), has entered [_flushBuffer] exactly once, has
    written the buffered records to the socket in that order, each once,
    and has emptied the buffer.  None of the events before entered the
    flush. *)
Theorem buffered_records_flushed_in_order
    (cfg : Config) (t t1 : TcpTransport) (es : list Event)
    (effs : list Effect) (w e : nat -> bool) (n fuel : nat) :
  reachable cfg t ->
  connected t = false ->
  Forall (fun ev => not_connect ev = true) es ->
  steps cfg t es t1 effs ->
  occupancy t + Z.of_nat (List.length (sent es)) <= bufferMax cfg ->
  settles w n ->
  handled w e ->
  (n + (List.length (buffer t) + List.length (sent es)) <= fuel)%nat ->
  exists s t2 effs2,
    socket t1 = Some s /\
    flush_calls effs = 0%nat /\
    handle fuel cfg t1 (SocketConnect w e) = Some (t2, effs2) /\
    flush_calls effs2 = 1%nat /\
    connected t2 = true /\
    buffer t2 = [] /\
    socket t2 = Some (write_all (buffer t ++ sent es) s) /\
    Net.written (write_all (buffer t ++ sent es) s) =
      Net.written s ++ buffer t ++ sent es.
Proof.
  intros Hr Hc Hq Hs Ho Hw He Hfuel.
  destruct (steps_while_disconnected cfg t t1 es effs Hs Hq Hc Ho)
    as (Hc1 & Hf & Hb).
  assert (Hr1 : reachable cfg t1) by (eapply steps_reachable; eassumption).
  pose proof (reachable_socket_defined cfg t1 Hr1) as Hd.
  destruct (socket t1) as [s|] eqn:Es; [|discriminate].
  assert (H0 : 0 <= bufferMax cfg) by (unfold occupancy in Ho; lia).
  pose proof (reachable_inv cfg t1 H0 Hr1) as Hinv.
  destruct (flush_loop_drains cfg w e n Hw He fuel 0
              (set_retryCount 0 (set_connected true t1)) s)
    as (t2 & e2 & E & Et & Eb & Eso); try reflexivity; try assumption.
  { cbn [buffer set_retryCount set_connected].
    rewrite Hb, length_app. lia. }
  destruct (flush_loop_frame cfg w e fuel 0 _ t2 e2 E) as (_ & Ec & _).
  pose proof (flush_loop_no_flush cfg w e fuel 0 _ t2 e2 E) as Hn.
  cbn [buffer set_retryCount set_connected] in Eso. rewrite Hb in Eso.
  exists s, t2, (Call_flushBuffer :: e2 ++ [Emit Connected]).
  split; [reflexivity|]. split; [exact Hf|]. split.
  { cbn [handle]. unfold on_connect, _flushBuffer. rewrite E.
    change (threw (Call_flushBuffer :: e2)) with (threw e2).
    now rewrite Et. }
  split.
  { change (Call_flushBuffer :: e2 ++ [Emit Connected])
      with ([Call_flushBuffer] ++ e2 ++ [Emit Connected]).
    rewrite !flush_calls_app, Hn. reflexivity. }
  split; [exact Ec|]. split; [exact Eb|]. split; [exact Eso|].
  apply written_write_all.
Qed.

(** Two records sent while the first attempt is in flight, a socket error
    in between; the attempt started by the timer connects, and the first
    write of the flush throws once. *)
Lemma buffered_records_flushed_witness :
  exists s t2 effs2,
    socket (state_after 1 (test_config 2) (fresh (test_config 2))
              [CallLog "a" false false; SocketError; CallLog "b" false false;
               TimerFires false]) = Some s /\
    flush_calls
      [SetImmediate (Logged "a"); Callback; Emit (Reconnecting (Ms 10) 1);
       SetImmediate (Logged "b"); Callback] = 0%nat /\
    handle 3 (test_config 2)
      (state_after 1 (test_config 2) (fresh (test_config 2))
         [CallLog "a" false false; SocketError; CallLog "b" false false;
          TimerFires false])
      (SocketConnect first_only never) = Some (t2, effs2) /\
    flush_calls effs2 = 1%nat /\
    connected t2 = true /\
    buffer t2 = [] /\
    socket t2 = Some (write_all ([] ++ [wire "a"; wire "b"]) s) /\
    Net.written (write_all ([] ++ [wire "a"; wire "b"]) s) =
      Net.written s ++ [] ++ [wire "a"; wire "b"].
Proof.
  apply (buffered_records_flushed_in_order (test_config 2)
           (fresh (test_config 2))
           (state_after 1 (test_config 2) (fresh (test_config 2))
              [CallLog "a" false false; SocketError;
               CallLog "b" false false; TimerFires false])
           [CallLog "a" false false; SocketError; CallLog "b" false false;
            TimerFires false]
           [SetImmediate (Logged "a"); Callback;
            Emit (Reconnecting (Ms 10) 1);
            SetImmediate (Logged "b"); Callback]
           first_only never 1%nat 3%nat).
  - apply fresh_reachable.
  - reflexivity.
  - repeat constructor.
  - apply (run_steps 1). reflexivity.
  - vm_compute. discriminate.
  - intros j Hj. destruct j; [lia | reflexivity].
  - intros k _. reflexivity.
  - simpl. lia.
Defined.

(** ** The ['connect'] listener *)

Section OnConnect.

Variable cfg : Config.

(** With transient write failures the listener returns, or is left by the
    exception of an ['error'] emit; either way it has entered the flush
    once, set [connected], reset [retryCount] and left [closing] as it was.
    ['connected'] is emitted, last, exactly when nothing was thrown. *)
Lemma on_connect_returns (t : TcpTransport) (w e : nat -> bool)
    (n fuel : nat) :
  settles w n ->
  (n + List.length (buffer t) <= fuel)%nat ->
  exists t' effs,
    on_connect fuel cfg t w e =
      Some (t', Call_flushBuffer :: effs
                  ++ (if threw effs then [] else [Emit Connected])) /\
    flush_calls effs = 0%nat /\
    connected t' = true /\
    retryCount t' = 0%nat /\
    closing t' = closing t.
Proof.
  intros Hw Hfuel.
  destruct (flush_loop_terminates cfg w e n Hw fuel 0
              (set_retryCount 0 (set_connected true t)))
    as (t' & effs & E & Er & Ec & Ecl & _).
  { cbn. lia. }
  exists t', effs. unfold on_connect, _flushBuffer. rewrite E.
  change (threw (Call_flushBuffer :: effs)) with (threw effs).
  split.
  { destruct (threw effs); [now rewrite app_nil_r | reflexivity]. }
  repeat split; try assumption.
  exact (flush_loop_no_flush cfg w e fuel 0 _ t' effs E).
Qed.

(** The notifications of a ['close'] event in a state whose retry counter
    is 0. *)
Lemma on_close_after_reset (t : TcpTransport) :
  retryCount t = 0%nat ->
  snd (on_close cfg t) =
    if closing t || (maxRetries cfg =? 0)
    then [Emit Disconnected]
    else [Emit Disconnected;
          Emit (Reconnecting
                  (Ms (Z.min (retryDelay cfg) (maxBackoff cfg))) 1)].
Proof.
  intros Hr. unfold on_close, _scheduleReconnect, retries_exhausted.
  cbn [closing retryCount set_connected]. rewrite Hr.
  destruct (closing t); [reflexivity|]. cbn [negb orb].
  destruct (maxRetries cfg =? 0) eqn:E0.
  - apply Z.eqb_eq in E0. rewrite E0. reflexivity.
  - apply Z.eqb_neq in E0.
    assert (E : (maxRetries cfg >=? 0) && (Z.of_nat 0 >=? maxRetries cfg)
                = false).
    { apply andb_false_iff. rewrite !Z.geb_leb, !Z.leb_gt. cbn. lia. }
    rewrite E. cbn [snd]. now rewrite backoff_delay_first.
Qed.

End OnConnect.

(** C9. The ['connect'] listener, when it is left (it is whenever the
    write failures are transient, be it by returning or by the exception
    of an ['error'] emit), leaves [connected = true] and [retryCount = 0];
    so the disconnection that follows schedules the first delay of the
    backoff sequence, [min retryDelay maxBackoff], as attempt 1 (unless the
    transport is closing or [maxRetries] is 0, when nothing is
    scheduled). *)
Theorem retryCount_reset_on_connect
    (cfg : Config) (t : TcpTransport) (w e : nat -> bool) (n fuel : nat) :
  settles w n ->
  (n + List.length (buffer t) <= fuel)%nat ->
  exists t' effs,
    on_connect fuel cfg t w e = Some (t', effs) /\
    connected t' = true /\
    retryCount t' = 0%nat /\
    backoff_delay cfg (retryCount t') =
      Ms (Z.min (retryDelay cfg) (maxBackoff cfg)) /\
    snd (on_close cfg t') =
      if closing t || (maxRetries cfg =? 0)
      then [Emit Disconnected]
      else [Emit Disconnected;
            Emit (Reconnecting
                    (Ms (Z.min (retryDelay cfg) (maxBackoff cfg))) 1)].
Proof.
  intros Hw Hfuel.
  destruct (on_connect_returns cfg t w e n fuel Hw Hfuel)
    as (t' & effs & E & _ & Ec & Er & Ecl).
  exists t'. eexists. split; [exact E|].
  split; [exact Ec|]. split; [exact Er|]. split.
  - rewrite Er. apply backoff_delay_first.
  - rewrite <- Ecl. now apply on_close_after_reset.
Qed.

(** After four failed attempts the connection succeeds; the first write of
    the flush throws once.  The counter is back at 0 and the next
    disconnection waits 10 ms again. *)
Lemma retryCount_reset_witness :
  exists t' effs,
    on_connect 3 (test_config 2) (set_retryCount 4 two_buffered)
      first_only never = Some (t', effs) /\
    connected t' = true /\
    retryCount t' = 0%nat /\
    backoff_delay (test_config 2) (retryCount t') = Ms 10 /\
    snd (on_close (test_config 2) t') =
      [Emit Disconnected; Emit (Reconnecting (Ms 10) 1)].
Proof.
  apply (retryCount_reset_on_connect (test_config 2)
           (set_retryCount 4 two_buffered) first_only never 1 3).
  - intros j Hj. destruct j; [lia | reflexivity].
  - simpl. lia.
Defined.

(** ** [close] while a connect attempt is in flight *)

(** C2.  The code does not do what the claim says: [close()] is called
    while the first attempt is in flight and one record is buffered; when
    the attempt succeeds the listener, which never reads [closing], sets
    [connected], enters the flush and hands the record to the socket that
    [close()] has ended, which cannot take it. *)
Lemma connect_after_close_flushes :
  reachable (test_config 2) closed_in_flight /\
  closing closed_in_flight = true /\
  connected closed_in_flight = false /\
  buffer closed_in_flight = [wire "a"] /\
  option_map Net.ended (socket closed_in_flight) = Some true /\
  exists t',
    handle 1 (test_config 2) closed_in_flight (SocketConnect never never) =
      Some (t', [Call_flushBuffer; Emit Connected]) /\
    connected t' = true /\
    buffer t' = [] /\
    option_map Net.written (socket t') = Some [wire "a"] /\
    option_map Net.refused (socket t') = Some [wire "a"].
Proof.
  split; [apply state_after_reachable|].
  repeat split. eexists. split; [reflexivity|]. repeat split.
Qed.

(** What the listener does after [close()], in general: it does not
    consult [closing], so a connect attempt that succeeds after [close()]
    still sets [connected], resets [retryCount] and enters the flush once.
    [closing] stays set, so [_scheduleReconnect] does nothing from then
    on. *)
Lemma connect_after_close_still_connects
    (cfg : Config) (t : TcpTransport) (w e : nat -> bool) (n fuel : nat) :
  settles w n ->
  (n + List.length (buffer t) <= fuel)%nat ->
  exists t' effs,
    on_connect fuel cfg (fst (close t)) w e =
      Some (t', Call_flushBuffer :: effs
                  ++ (if threw effs then [] else [Emit Connected])) /\
    flush_calls effs = 0%nat /\
    connected t' = true /\
    retryCount t' = 0%nat /\
    closing t' = true /\
    _scheduleReconnect cfg t' = (t', []).
Proof.
  intros Hw Hfuel.
  destruct (close_fields t) as (Eb & _ & _ & Ecl & _).
  destruct (on_connect_returns cfg (fst (close t)) w e n fuel Hw)
    as (t' & effs & E & Hf & Hc & Hr & Hcl).
  { now rewrite Eb. }
  exists t', effs. rewrite Hcl, Ecl.
  repeat split; try assumption.
  apply scheduleReconnect_closing. now rewrite Hcl.
Qed.

(** ** Consecutive failed attempts *)

(** The attempt index really runs through 0, 1, 2, ...: over [n] failed
    attempts in a row the notifications are those of the indices
    [retryCount t], [retryCount t + 1], ... in this order. *)
Lemma failed_rounds_delays (cfg : Config) (n : nat) :
  forall t,
    closing t = false ->
    defined (socket t) = true ->
    maxRetries cfg < 0 \/ Z.of_nat (retryCount t + n) <= maxRetries cfg ->
    exists t',
      run 0 cfg t (failed_rounds n) =
        Some (t', map (reconnecting_at cfg) (seq (retryCount t) n)) /\
      retryCount t' = (retryCount t + n)%nat.
Proof.
  induction n as [|n IH]; intros t Hc Hs Hm.
  - exists t. cbn. now rewrite Nat.add_0_r.
  - assert (He : retries_exhausted cfg (set_connected false t) = false).
    { unfold retries_exhausted. cbn [retryCount set_connected].
      apply andb_false_iff. rewrite !Z.geb_leb, !Z.leb_gt. lia. }
    cbn [failed_rounds run enabled handle]. rewrite Hs.
    unfold on_error.
    rewrite (scheduleReconnect_arms cfg (set_connected false t) Hc He).
    cbn [enabled reconnectTimer set_reconnectTimer timeout_pending handle].
    destruct (on_timer cfg _ false) as [t2 e2] eqn:Et.
    unfold on_timer, _connect in Et. cbn in Et. injection Et as <- <-.
    match goal with
    | |- context [run 0 cfg ?x (failed_rounds n)] => set (t2 := x)
    end.
    destruct (IH t2) as (t' & E & Er); [exact Hc | reflexivity | |].
    { change (retryCount t2) with (S (retryCount t)).
      destruct Hm as [Hm|Hm]; [now left | right; lia]. }
    exists t'. rewrite E. change (retryCount t2) with (S (retryCount t)) in *.
    split; [reflexivity | lia].
Qed.

(** ** A write failure during the flush *)

Section FlushFailure.

Variable cfg : Config.

(** If [socket.write] throws every time (and the ['error'] emits return),
    the loop never ends: whatever the fuel, no result. *)
Lemma flush_loop_hangs (fuel : nat) :
  forall k t m rest,
    connected t = true ->
    socket t <> None ->
    buffer t = m :: rest ->
    truthy m = true ->
    Z.of_nat (List.length rest) < bufferMax cfg ->
    flush_loop fuel cfg always never k t = None.
Proof.
  induction fuel as [|fuel IH]; intros k t m rest Hc Hs Eb Hm Hlen;
    cbn; unfold flush_guard; rewrite Eb, Hc;
    destruct (socket t) as [s|] eqn:Es; try congruence;
    cbn [List.length Nat.eqb negb andb defined]; [reflexivity|].
  rewrite Hm. unfold always at 1. unfold never at 1.
  assert (Hso : socket (set_buffer rest t) <> None) by (cbn; congruence).
  destruct (safeWrite_throws cfg (set_buffer rest t) m Hso)
    as (Fb & _ & Fc & _ & Fs & _).
  pose proof (safeWrite_threw cfg (set_buffer rest t) m true false) as Ft.
  rewrite andb_false_r in Ft.
  assert (Ho : (occupancy (set_buffer rest t) <? bufferMax cfg) = true)
    by (apply Z.ltb_lt; unfold occupancy; cbn; lia).
  rewrite Ho in Fb. cbn [buffer connected socket set_buffer] in Fb, Fc, Fs.
  destruct (_safeWrite cfg (set_buffer rest t) m true false) as [t2 e2].
  cbn [fst snd] in Fb, Fc, Fs, Ft. rewrite Ft.
  rewrite (IH (S k) t2 m rest); congruence.
Qed.

End FlushFailure.

(** A socket whose [write] always throws blocks the ['connect'] listener
    for good: no amount of fuel yields a result. *)
Lemma connect_listener_hangs (fuel : nat) :
  handle fuel (test_config 2) two_buffered (SocketConnect always never)
    = None.
Proof.
  cbn [handle]. unfold on_connect, _flushBuffer.
  rewrite (flush_loop_hangs (test_config 2) fuel 0 _ (wire "a") [wire "b"]);
    try reflexivity.
  discriminate.
Qed.

(** C3 on the code: two records are buffered and the first write of the
    flush throws.  The record is put back and a reconnect is scheduled, but
    the loop goes on in the same run: it writes the record at the second
    try, then the next one, and the buffer ends empty. *)
Lemma flush_continues_after_write_failure :
  reachable (test_config 2) two_buffered /\
  buffer two_buffered = [wire "a"; wire "b"] /\
  exists t',
    handle 3 (test_config 2) two_buffered (SocketConnect first_only never) =
      Some (t', [Call_flushBuffer; Emit (Error WriteError);
                 Emit (Reconnecting (Ms 10) 1); Emit Connected]) /\
    buffer t' = [] /\
    option_map Net.written (socket t') = Some [wire "a"; wire "b"].
Proof.
  split; [apply state_after_reachable|].
  split; [reflexivity|].
  eexists. split; [reflexivity|]. split; reflexivity.
Qed.

(** ** [log] after [close] *)

(** C10 on the code: the buffered records do not stay.  One record is
    buffered while the first attempt is in flight; [close()] leaves it in
    the buffer, and a record logged after [close()] joins it.  When the
    attempt then succeeds, the ['connect'] listener, which never reads
    [closing], empties the buffer into the socket that [close()] has
    ended: both records are gone from the buffer, and the socket could
    take neither. *)
Lemma late_connect_empties_buffer_after_close :
  reachable (test_config 2) closed_in_flight /\
  closing closed_in_flight = true /\
  buffer closed_in_flight =
    buffer (state_after 1 (test_config 2) (fresh (test_config 2))
              [CallLog "a" false false]) /\
  buffer closed_in_flight = [wire "a"] /\
  exists t',
    run 2 (test_config 2) closed_in_flight
      [CallLog "b" false false; SocketConnect never never] =
      Some (t', [SetImmediate (Logged "b"); Callback;
                 Call_flushBuffer; Emit Connected]) /\
    closing t' = true /\
    buffer t' = [] /\
    option_map Net.ended (socket t') = Some true /\
    option_map Net.refused (socket t') = Some [wire "a"; wire "b"].
Proof.
  split; [apply state_after_reachable|].
  repeat split. eexists. split; [reflexivity|]. repeat split.
Qed.

(** X18. What does hold of [close()] and a later [log]: [close()] itself
    leaves the buffer as it is, and [log] does not consult [closing].  On
    the state [close()] leaves, a record is passed to [socket.write] while
    the transport is still marked connected (on the socket [close()] has
    just ended), appended to the buffer when it is not and there is room,
    reported as overflow when there is none; the callback is called last
    unless an ['error'] emit throws.  (If the write throws, the failure
    path of [_safeWrite] runs, where [closing] only keeps the reconnect
    from being scheduled.) *)
Theorem log_after_close_still_accepted
    (cfg : Config) (t : TcpTransport) (info : string)
    (write_throws emit_throws : bool) :
  buffer (fst (close t)) = buffer t /\
  closing (fst (close t)) = true /\
  log cfg (fst (close t)) info write_throws emit_throws =
    if can_write t then
      if write_throws then
        if emit_throws then
          (fst (close t),
           [SetImmediate (Logged info); Emit (Error WriteError);
            Throw WriteError])
        else
          (if occupancy t <? bufferMax cfg
           then set_buffer (wire info :: buffer t) (fst (close t))
           else fst (close t),
           [SetImmediate (Logged info); Emit (Error WriteError); Callback])
      else
        (set_socket
           (option_map (Net.write (wire info)) (socket (fst (close t))))
           (fst (close t)),
         [SetImmediate (Logged info); Callback])
    else
      if occupancy t <? bufferMax cfg then
        (set_buffer (buffer t ++ [wire info]) (fst (close t)),
         [SetImmediate (Logged info); Callback])
      else
        (fst (close t),
         [SetImmediate (Logged info); Emit (Error BufferOverflow);
          if emit_throws then Throw BufferOverflow else Callback]).
Proof.
  destruct (close_fields t) as (Eb & _ & Ec & Ecl & _ & Es & _).
  split; [exact Eb|]. split; [exact Ecl|].
  assert (Eo : occupancy (fst (close t)) = occupancy t)
    by (unfold occupancy; now rewrite Eb).
  assert (Ew : can_write (fst (close t)) = can_write t).
  { unfold can_write. rewrite Ec, Es. now destruct (socket t). }
  destruct (can_write t) eqn:Hw.
  - destruct write_throws.
    + destruct emit_throws; [now apply log_write_fails_throws|].
      rewrite (log_write_fails cfg _ info Ew).
      assert (Hs : socket (fst (close t)) <> None).
      { unfold can_write in Ew. apply andb_true_iff in Ew.
        destruct Ew as [_ Ew]. now destruct (socket (fst (close t))). }
      destruct (safeWrite_throws cfg (fst (close t)) (wire info) Hs)
        as (Fb & Fr & Fc & Fcl & Fs & Fe).
      rewrite Fe, (scheduleReconnect_closing cfg _ Ecl). cbn [snd app].
      f_equal. unfold _safeWrite.
      destruct (socket (fst (close t))) as [s|]; [|congruence].
      rewrite Eo, Eb.
      destruct (occupancy t <? bufferMax cfg);
        now rewrite scheduleReconnect_closing.
    + unfold can_write in Ew. apply andb_true_iff in Ew.
      destruct Ew as [Ew1 Ew2].
      destruct (socket (fst (close t))) as [s|] eqn:Es'; [|discriminate].
      now rewrite (log_writes cfg _ info s emit_throws Ew1 Es').
  - destruct (occupancy t <? bufferMax cfg) eqn:Ho.
    + apply Z.ltb_lt in Ho.
      rewrite (log_buffers cfg _ info write_throws emit_throws Ew) by lia.
      now rewrite Eb.
    + apply Z.ltb_ge in Ho.
      now rewrite (log_overflows cfg _ info write_throws emit_throws Ew)
        by lia.
Qed.

(** * Further properties of the life cycle *)

(** ** Shared lemmas *)

Section Lifecycle.

Variable cfg : Config.

Lemma exhausted_false_iff (t : TcpTransport) :
  retries_exhausted cfg t = false <->
  maxRetries cfg < 0 \/ Z.of_nat (retryCount t) < maxRetries cfg.
Proof.
  unfold retries_exhausted.
  rewrite andb_false_iff, !Z.geb_leb, !Z.leb_gt. tauto.
Qed.

(** Anything that holds of the state before the loop of [_flushBuffer], is
    kept by dropping the head of the buffer and by [_safeWrite], holds when
    the loop returns; likewise for the effects. *)
Lemma flush_loop_preserves (P : TcpTransport -> Prop)
    (Q : list Effect -> Prop) :
  (forall t m rest, P t -> buffer t = m :: rest -> P (set_buffer rest t)) ->
  (forall t m b c, P t ->
     P (fst (_safeWrite cfg t m b c)) /\
     Q (snd (_safeWrite cfg t m b c))) ->
  Q [] ->
  (forall xs ys, Q xs -> Q ys -> Q (xs ++ ys)) ->
  forall (w e : nat -> bool) fuel k t t' effs,
    P t ->
    flush_loop fuel cfg w e k t = Some (t', effs) ->
    P t' /\ Q effs.
Proof.
  intros Htail Hwrite Hnil Happ w e.
  induction fuel as [|fuel IH]; intros k t t' effs HP Hf; cbn in Hf.
  - destruct (flush_guard t); [discriminate|].
    injection Hf as <- <-. auto.
  - destruct (flush_guard t); [|injection Hf as <- <-; auto].
    destruct (buffer t) as [|m rest] eqn:Eb; [injection Hf as <- <-; auto|].
    pose proof (Htail t m rest HP Eb) as HP1.
    destruct (truthy m).
    + destruct (Hwrite (set_buffer rest t) m (w k) (e k) HP1)
        as [HP2 HQ2].
      destruct (_safeWrite cfg (set_buffer rest t) m (w k) (e k))
        as [t2 e2].
      cbn [fst snd] in HP2, HQ2.
      destruct (threw e2); [injection Hf as <- <-; auto|].
      destruct (flush_loop fuel cfg w e (S k) t2) as [[t3 e3]|] eqn:Hl;
        [|discriminate].
      injection Hf as <- <-.
      destruct (IH (S k) t2 t3 e3 HP2 Hl) as [HP3 HQ3]. auto.
    + exact (IH k (set_buffer rest t) t' effs HP1 Hf).
Qed.

Lemma scheduleReconnect_lifecycle (t : TcpTransport) :
  lifecycle_inv cfg t ->
  lifecycle_inv cfg (fst (_scheduleReconnect cfg t)).
Proof.
  intros H.
  destruct (closing t) eqn:Hc;
    [now rewrite (scheduleReconnect_closing cfg t Hc)|].
  destruct (retries_exhausted cfg t) eqn:He;
    [now rewrite (scheduleReconnect_exhausted cfg t He)|].
  rewrite (scheduleReconnect_arms cfg t Hc He).
  apply exhausted_false_iff in He. destruct H as (H1 & H2 & H3 & H4).
  unfold lifecycle_inv, timer_pending, end_pending in *. cbn.
  repeat split; try assumption; try congruence; intros; lia.
Qed.

(** [_scheduleReconnect] announces nothing on a closing transport. *)
Lemma scheduleReconnect_silent_when_closing (t : TcpTransport) :
  closing t = true ->
  closing (fst (_scheduleReconnect cfg t)) = true /\
  reconnect_announcements (snd (_scheduleReconnect cfg t)) = 0%nat.
Proof.
  intros Hc. rewrite (scheduleReconnect_closing cfg t Hc). auto.
Qed.

Lemma safeWrite_lifecycle (t : TcpTransport) (m : string) (b c : bool) :
  lifecycle_inv cfg t ->
  lifecycle_inv cfg (fst (_safeWrite cfg t m b c)).
Proof.
  intros H. unfold _safeWrite.
  destruct (socket t) as [s|] eqn:Es; [|exact H].
  destruct b.
  - destruct c; [exact H|].
    set (t1 := if occupancy t <? bufferMax cfg
               then set_buffer (m :: buffer t) t else t).
    assert (H1 : lifecycle_inv cfg t1)
      by (subst t1; destruct (occupancy t <? bufferMax cfg); exact H).
    pose proof (scheduleReconnect_lifecycle t1 H1) as H2.
    now destruct (_scheduleReconnect cfg t1).
  - unfold lifecycle_inv, timer_pending, end_pending in *. cbn.
    now rewrite Es in H.
Qed.

Lemma safeWrite_silent_when_closing (t : TcpTransport) (m : string)
    (b c : bool) :
  closing t = true ->
  closing (fst (_safeWrite cfg t m b c)) = true /\
  reconnect_announcements (snd (_safeWrite cfg t m b c)) = 0%nat.
Proof.
  intros Hc. unfold _safeWrite.
  destruct (socket t) as [s|]; [|auto].
  destruct b; [|auto].
  destruct c; [auto|].
  set (t1 := if occupancy t <? bufferMax cfg
             then set_buffer (m :: buffer t) t else t).
  assert (H1 : closing t1 = true)
    by (subst t1; destruct (occupancy t <? bufferMax cfg); exact Hc).
  rewrite (scheduleReconnect_closing cfg t1 H1). auto.
Qed.

Lemma announcements_app (xs ys : list Effect) :
  reconnect_announcements (xs ++ ys) =
  (reconnect_announcements xs + reconnect_announcements ys)%nat.
Proof.
  unfold reconnect_announcements. now rewrite filter_app, length_app.
Qed.

Lemma connect_lifecycle (t : TcpTransport) (c : bool) :
  lifecycle_inv cfg t ->
  closing t = false ->
  timer_pending t = false ->
  lifecycle_inv cfg (fst (_connect cfg t c)).
Proof.
  intros (H1 & H2 & H3 & H4) Hc Hp. unfold _connect. destruct c.
  - apply scheduleReconnect_lifecycle.
    unfold lifecycle_inv, timer_pending, end_pending in *. cbn.
    repeat split; auto; congruence.
  - unfold lifecycle_inv, timer_pending, end_pending in *. cbn.
    repeat split; auto; congruence.
Qed.

(** Every handler keeps the invariant. *)
Lemma handle_lifecycle (fuel : nat) (t t' : TcpTransport) (e : Event)
    (effs : list Effect) :
  lifecycle_inv cfg t ->
  enabled e t = true ->
  handle fuel cfg t e = Some (t', effs) ->
  lifecycle_inv cfg t'.
Proof.
  intros H He Hh. destruct e; cbn in He, Hh.
  - unfold on_connect, _flushBuffer in Hh.
    destruct (flush_loop fuel cfg write_throws emit_throws 0
                (set_retryCount 0 (set_connected true t)))
      as [[t3 e3]|] eqn:Hl; [|discriminate].
    injection Hh as <- _.
    refine (proj1 (flush_loop_preserves (lifecycle_inv cfg) (fun _ => True)
                     _ _ I (fun _ _ _ _ => I) write_throws emit_throws
                     fuel 0 _ t3 e3 _ Hl)).
    + intros t0 m rest H0 _. exact H0.
    + intros t0 m b c H0. split; [now apply safeWrite_lifecycle | exact I].
    + destruct H as (H1 & H2 & H3 & H4).
      unfold lifecycle_inv, timer_pending, end_pending in *. cbn.
      repeat split; auto; intros; try lia.
      specialize (H2 H H0). lia.
  - result_of Hh. unfold on_error. apply scheduleReconnect_lifecycle.
    exact H.
  - result_of Hh. unfold on_close.
    destruct (negb (closing (set_connected false t))); [|exact H].
    pose proof (scheduleReconnect_lifecycle (set_connected false t) H) as Hs.
    now destruct (_scheduleReconnect cfg (set_connected false t)).
  - result_of Hh. unfold on_timeout. apply scheduleReconnect_lifecycle.
    destruct (socket t) as [s|] eqn:Es; [|exact H].
    unfold lifecycle_inv, timer_pending, end_pending in *. cbn.
    now rewrite Es in H.
  - result_of Hh. unfold on_timer.
    destruct H as (H1 & H2 & H3 & H4).
    destruct (reconnectTimer t) as [h|] eqn:Et; [|discriminate].
    assert (Hp : timer_pending t = true)
      by (unfold timer_pending; now rewrite Et).
    assert (Hc : closing t = false).
    { destruct (closing t); [|reflexivity].
      rewrite (H3 eq_refl) in Hp. discriminate. }
    apply connect_lifecycle; [|exact Hc|reflexivity].
    unfold lifecycle_inv, timer_pending, end_pending in *. cbn.
    repeat split; auto; intros; try discriminate.
    specialize (H2 H Hp). lia.
  - unfold on_end in Hh. injection Hh as <- _.
    destruct H as (H1 & H2 & H3 & H4).
    destruct (socket t) as [s|] eqn:Es; [|discriminate].
    unfold lifecycle_inv, timer_pending, end_pending in *. cbn.
    repeat split; auto.
  - result_of Hh. unfold log.
    destruct (connected t && defined (socket t)).
    + pose proof (safeWrite_lifecycle t (wire info) write_throws
                    emit_throws H) as Hs.
      now destruct (_safeWrite cfg t (wire info) write_throws emit_throws).
    + now destruct (occupancy t >=? bufferMax cfg).
  - result_of Hh. destruct H as (H1 & H2 & H3 & H4).
    destruct (close_fields t) as (_ & Er & _ & Ecl & Etm & Es & _).
    unfold lifecycle_inv, timer_pending, end_pending.
    rewrite Er, Ecl, Etm. repeat split; auto; discriminate.
Qed.

Lemma reachable_lifecycle (t : TcpTransport) :
  reachable cfg t -> lifecycle_inv cfg t.
Proof.
  induction 1 as [c | t t' e effs _ IH Hs].
  - apply connect_lifecycle; try reflexivity.
    unfold lifecycle_inv. cbn. repeat split; auto; discriminate.
  - destruct Hs as [e fuel t' effs He Hh].
    exact (handle_lifecycle fuel t t' e effs IH He Hh).
Qed.

End Lifecycle.

(** ** The retry budget *)

(** X1. With a bounded budget ([maxRetries >= 0]) the retry counter never
    exceeds [maxRetries] in a reachable state: the timer callback, the only
    place that increments it, runs only for a timer armed while budget was
    left. *)
Theorem retry_budget_never_overdrawn (cfg : Config) (t : TcpTransport) :
  0 <= maxRetries cfg ->
  reachable cfg t ->
  Z.of_nat (retryCount t) <= maxRetries cfg.
Proof.
  intros H0 Hr. destruct (reachable_lifecycle cfg t Hr) as (H1 & _). auto.
Qed.

Lemma retry_budget_witness :
  Z.of_nat (retryCount (state_after 0 (budget_config 2)
                          (fresh (budget_config 2))
                          (failed_rounds 2 ++ [SocketError; SocketClose])))
    <= maxRetries (budget_config 2).
Proof.
  apply (retry_budget_never_overdrawn (budget_config 2)).
  - simpl. lia.
  - apply state_after_reachable.
Defined.

(** X2. With [maxRetries = 0] no reconnect is ever scheduled: in no
    reachable state is a timer pending, so [_connect] runs once, in the
    constructor, and never again. *)
Theorem zero_retries_never_reconnects
    (cfg : Config) (t : TcpTransport) (c : bool) :
  maxRetries cfg = 0 ->
  reachable cfg t ->
  enabled (TimerFires c) t = false.
Proof.
  intros H0 Hr. destruct (reachable_lifecycle cfg t Hr) as (_ & H2 & _).
  change (enabled (TimerFires c) t) with (timer_pending t).
  destruct (timer_pending t); [|reflexivity].
  assert (Z.of_nat (retryCount t) < maxRetries cfg) by (apply H2; [lia|easy]).
  lia.
Qed.

Lemma zero_retries_witness :
  enabled (TimerFires false)
    (state_after 0 (budget_config 0) (fresh (budget_config 0))
       [CallLog "a" false false; SocketError; SocketClose]) = false.
Proof.
  apply (zero_retries_never_reconnects (budget_config 0)).
  - reflexivity.
  - apply state_after_reachable.
Defined.

(** ** After [close()] *)

Section AfterClose.

Variable cfg : Config.

(** On a closing transport every handler leaves [closing] set and
    announces no reconnect. *)
Lemma handle_when_closing (fuel : nat) (t t' : TcpTransport) (e : Event)
    (effs : list Effect) :
  closing t = true ->
  handle fuel cfg t e = Some (t', effs) ->
  closing t' = true /\ reconnect_announcements effs = 0%nat.
Proof.
  intros Hc Hh. destruct e; cbn [handle] in Hh.
  - destruct (on_connect_inv cfg _ _ _ _ _ _ Hh) as (e3 & Hl & ->).
    destruct (flush_loop_preserves cfg (fun x => closing x = true)
                (fun xs => reconnect_announcements xs = 0%nat))
      with (w := write_throws) (e := emit_throws) (fuel := fuel) (k := 0%nat)
           (t := set_retryCount 0 (set_connected true t))
           (t' := t') (effs := e3) as [Hc3 Hq3]; auto.
    + intros t0 m b c H0. now apply safeWrite_silent_when_closing.
    + intros xs ys Hx Hy. now rewrite announcements_app, Hx, Hy.
    + split; [exact Hc3|].
      rewrite !announcements_app, Hq3. now destruct (threw e3).
  - injection Hh as Hh. unfold on_error in Hh.
    rewrite scheduleReconnect_closing in Hh by exact Hc.
    injection Hh as <- <-. auto.
  - injection Hh as Hh. unfold on_close in Hh.
    cbn [closing set_connected] in Hh. rewrite Hc in Hh.
    injection Hh as <- <-. auto.
  - injection Hh as Hh. unfold on_timeout in Hh.
    rewrite scheduleReconnect_closing in Hh
      by (destruct (socket t); exact Hc).
    injection Hh as <- <-. split; [now destruct (socket t) | reflexivity].
  - injection Hh as Hh. unfold on_timer, _connect in Hh.
    destruct connect_throws.
    + rewrite scheduleReconnect_closing in Hh
        by (destruct (reconnectTimer t); exact Hc).
      injection Hh as <- <-.
      split; [now destruct (reconnectTimer t) | reflexivity].
    + injection Hh as <- <-.
      split; [now destruct (reconnectTimer t) | reflexivity].
  - unfold on_end in Hh. injection Hh as <- <-.
    split; [now destruct (socket t) | reflexivity].
  - injection Hh as Hh. unfold log in Hh.
    destruct (connected t && defined (socket t)).
    + destruct (safeWrite_silent_when_closing cfg t (wire info)
                  write_throws emit_throws Hc) as [Hc1 Hq1].
      destruct (_safeWrite cfg t (wire info) write_throws emit_throws)
        as [t1 e1].
      injection Hh as <- <-. split; [exact Hc1|].
      cbn [snd] in Hq1.
      change (reconnect_announcements
                ([SetImmediate (Logged info)]
                   ++ (if threw e1 then e1 else e1 ++ [Callback])) = 0%nat).
      destruct (threw e1); now rewrite !announcements_app, Hq1.
    + destruct (occupancy t >=? bufferMax cfg);
        [destruct emit_throws|]; injection Hh as <- <-; auto.
  - injection Hh as Hh. apply (f_equal fst) in Hh as Hf.
    apply (f_equal snd) in Hh. cbn in Hf, Hh. subst t' effs.
    destruct (close_fields t) as (_ & _ & _ & Ecl & _ & _ & Ee).
    now rewrite Ecl, Ee.
Qed.

End AfterClose.

(** X3. [close()] is final: from a reachable state with [closing] set, in
    any run of the event loop [closing] stays set, the reconnect timer never
    fires (so no new connect attempt is made), and no ['reconnecting']
    notification is emitted. *)
Theorem no_reconnect_after_close
    (cfg : Config) (t t' : TcpTransport) (es : list Event)
    (effs : list Effect) :
  reachable cfg t ->
  closing t = true ->
  steps cfg t es t' effs ->
  closing t' = true /\
  Forall (fun e => is_timer e = false) es /\
  reconnect_announcements effs = 0%nat.
Proof.
  intros Hr Hc Hs. revert Hr Hc.
  induction Hs as [t | t e es t1 t2 effs1 effs2 Hs Hss IH]; intros Hr Hc.
  - repeat split; auto.
  - assert (Hr1 : reachable cfg t1) by (eapply reachable_step; eassumption).
    destruct Hs as [e fuel t1 effs1 He Hh].
    destruct (handle_when_closing cfg fuel t t1 e effs1 Hc Hh) as [Hc1 Hq1].
    destruct (IH Hr1 Hc1) as (Hc2 & Hf2 & Hq2).
    split; [exact Hc2|]. split.
    + constructor; [|exact Hf2].
      destruct e; try reflexivity. cbn in He.
      destruct (reachable_lifecycle cfg t Hr) as (_ & _ & H3 & _).
      change (timer_pending t = true) in He.
      rewrite (H3 Hc) in He. discriminate.
    + now rewrite announcements_app, Hq1, Hq2.
Qed.

(** After [close()] with a record buffered and a timer pending: the
    connect attempt in flight succeeds, then the socket fails and ends. *)
Lemma no_reconnect_after_close_witness :
  closing (state_after 1 (test_config 2)
             (state_after 1 (test_config 2) (fresh (test_config 2))
                [CallLog "a" false false; SocketError; CallClose])
             [SocketConnect never never; SocketError; SocketClose; EndCallback])
    = true /\
  Forall (fun e => is_timer e = false)
    [SocketConnect never never; SocketError; SocketClose; EndCallback] /\
  reconnect_announcements
    [Call_flushBuffer; Emit Connected; Emit Disconnected; Emit Closed]
    = 0%nat.
Proof.
  apply (no_reconnect_after_close (test_config 2)
           (state_after 1 (test_config 2) (fresh (test_config 2))
              [CallLog "a" false false; SocketError; CallClose])).
  - apply state_after_reachable.
  - reflexivity.
  - apply (run_steps 1). reflexivity.
Defined.

(** ** Which handler touches what *)

Section Frames.

Variable cfg : Config.

Lemma connect_frame (t : TcpTransport) (c : bool) :
  connected (fst (_connect cfg t c)) = connected t /\
  closing (fst (_connect cfg t c)) = closing t /\
  retryCount (fst (_connect cfg t c)) = retryCount t.
Proof.
  unfold _connect. destruct c; [|auto].
  match goal with
  | |- context [_scheduleReconnect cfg ?x] =>
      destruct (scheduleReconnect_frame cfg x) as (_ & Er & Ec & Ecl & _)
  end.
  rewrite Er, Ec, Ecl. auto.
Qed.

Lemma scheduleReconnect_no_closed (t : TcpTransport) :
  ~ In (Emit Closed) (snd (_scheduleReconnect cfg t)).
Proof.
  unfold _scheduleReconnect.
  destruct (closing t); [intros []|].
  destruct (retries_exhausted cfg t); [intros []|].
  cbn. intros [H|[]]. discriminate.
Qed.

Lemma safeWrite_no_closed (t : TcpTransport) (m : string) (b c : bool) :
  ~ In (Emit Closed) (snd (_safeWrite cfg t m b c)).
Proof.
  unfold _safeWrite. destruct (socket t) as [s|]; [|intros []].
  destruct b; [|intros []].
  destruct c; [cbn; intuition discriminate|].
  match goal with
  | |- context [_scheduleReconnect cfg ?x] =>
      pose proof (scheduleReconnect_no_closed x) as H;
      destruct (_scheduleReconnect cfg x) as [t2 e2]
  end.
  cbn in *. intros [E|E]; [discriminate | auto].
Qed.

(** Only the end callback emits ['closed']. *)
Lemma handle_no_closed (fuel : nat) (t t' : TcpTransport) (e : Event)
    (effs : list Effect) :
  e <> EndCallback ->
  handle fuel cfg t e = Some (t', effs) ->
  ~ In (Emit Closed) effs.
Proof.
  intros Hne Hh. destruct e; cbn [handle] in Hh; try congruence.
  - destruct (on_connect_inv cfg _ _ _ _ _ _ Hh) as (e3 & Hl & ->).
    destruct (flush_loop_preserves cfg (fun _ => True)
                (fun xs => ~ In (Emit Closed) xs))
      with (w := write_throws) (e := emit_throws) (fuel := fuel) (k := 0%nat)
           (t := set_retryCount 0 (set_connected true t))
           (t' := t') (effs := e3) as [_ Hq3]; auto.
    + intros t0 m b c _. split; [exact I | apply safeWrite_no_closed].
    + intros xs ys Hx Hy Hin. apply in_app_or in Hin. tauto.
    + intros Hin. apply in_app_or in Hin.
      destruct Hin as [[E|[]]|Hin]; [discriminate|].
      apply in_app_or in Hin. destruct Hin as [Hin|Hin]; [auto|].
      destruct (threw e3); [destruct Hin|].
      destruct Hin as [E|[]]. discriminate.
  - injection Hh as Hh. apply (f_equal snd) in Hh. cbn in Hh. subst effs.
    apply scheduleReconnect_no_closed.
  - injection Hh as Hh. apply (f_equal snd) in Hh. cbn in Hh. subst effs.
    unfold on_close.
    destruct (negb (closing (set_connected false t)));
      [|cbn; intros [E|[]]; discriminate].
    pose proof (scheduleReconnect_no_closed (set_connected false t)) as H.
    destruct (_scheduleReconnect cfg (set_connected false t)).
    cbn in *. intros [E|E]; [discriminate | auto].
  - injection Hh as Hh. apply (f_equal snd) in Hh. cbn in Hh. subst effs.
    apply scheduleReconnect_no_closed.
  - injection Hh as Hh. apply (f_equal snd) in Hh. cbn in Hh. subst effs.
    unfold on_timer, _connect. destruct connect_throws; [|intros []].
    apply scheduleReconnect_no_closed.
  - injection Hh as Hh. apply (f_equal snd) in Hh. cbn in Hh. subst effs.
    unfold log. destruct (connected t && defined (socket t)).
    + pose proof (safeWrite_no_closed t (wire info) write_throws
                    emit_throws) as H.
      destruct (_safeWrite cfg t (wire info) write_throws emit_throws)
        as [t1 e1].
      cbn [fst snd] in *. intros [E|Hin]; [discriminate|].
      destruct (threw e1); [auto|].
      apply in_app_or in Hin. destruct Hin as [Hin|[E|[]]];
        [auto | discriminate].
    + destruct (occupancy t >=? bufferMax cfg); [destruct emit_throws|];
        cbn; intuition discriminate.
  - injection Hh as Hh. apply (f_equal snd) in Hh. cbn in Hh. subst effs.
    destruct (close_fields t) as (_ & _ & _ & _ & _ & _ & ->). intros [].
Qed.

End Frames.

(** X4. ['closed'] is never emitted before [close()] was called: in a
    reachable state with [closing] unset the end callback cannot run, and
    no other handler emits ['closed']. *)
Theorem closed_only_after_close
    (cfg : Config) (t t' : TcpTransport) (e : Event) (effs : list Effect) :
  reachable cfg t ->
  closing t = false ->
  step cfg t e t' effs ->
  enabled EndCallback t = false /\ ~ In (Emit Closed) effs.
Proof.
  intros Hr Hc Hs.
  destruct (reachable_lifecycle cfg t Hr) as (_ & _ & _ & H4).
  assert (He : enabled EndCallback t = false) by exact (H4 Hc).
  split; [exact He|].
  destruct Hs as [e fuel t' effs Hen Hh].
  apply (handle_no_closed cfg fuel t t' e effs); [|exact Hh].
  intros ->. rewrite He in Hen. discriminate.
Qed.

Lemma closed_only_after_close_witness :
  enabled EndCallback
    (state_after 1 (test_config 2) (fresh (test_config 2))
       [SocketConnect never never; SocketTimeout]) = false /\
  ~ In (Emit Closed) [Emit Disconnected; Emit (Reconnecting (Ms 10) 1)].
Proof.
  apply (closed_only_after_close (test_config 2)
           (state_after 1 (test_config 2) (fresh (test_config 2))
              [SocketConnect never never; SocketTimeout])
           (state_after 1 (test_config 2) (fresh (test_config 2))
              [SocketConnect never never; SocketTimeout; SocketClose])
           SocketClose).
  - apply state_after_reachable.
  - reflexivity.
  - apply (step_intro _ _ SocketClose 0); reflexivity.
Defined.

(** X5. [connected] is written by three listeners only: ['connect'] sets
    it, ['error'] and ['close'] clear it.  The ['timeout'] listener, the
    timer callback (which replaces the socket), a failed write, [log] and
    [close()] all leave it as it was. *)
Theorem connected_written_by_socket_events
    (fuel : nat) (cfg : Config) (t t' : TcpTransport) (e : Event)
    (effs : list Effect) :
  handle fuel cfg t e = Some (t', effs) ->
  connected t' = match e with
                 | SocketConnect _ _ => true
                 | SocketError | SocketClose => false
                 | _ => connected t
                 end.
Proof.
  intros Hh. destruct e; cbn [handle] in Hh.
  - destruct (on_connect_inv cfg _ _ _ _ _ _ Hh) as (e3 & Hl & _).
    now destruct (flush_loop_frame cfg write_throws emit_throws fuel 0 _
                    t' e3 Hl) as (_ & -> & _).
  - result_of Hh. unfold on_error.
    now destruct (scheduleReconnect_frame cfg (set_connected false t))
      as (_ & _ & -> & _).
  - result_of Hh. unfold on_close.
    destruct (negb (closing (set_connected false t))); [|reflexivity].
    destruct (scheduleReconnect_frame cfg (set_connected false t))
      as (_ & _ & Ec & _).
    now destruct (_scheduleReconnect cfg (set_connected false t)).
  - result_of Hh. unfold on_timeout.
    match goal with
    | |- context [_scheduleReconnect cfg ?x] =>
        destruct (scheduleReconnect_frame cfg x) as (_ & _ & -> & _)
    end.
    now destruct (socket t).
  - result_of Hh. unfold on_timer.
    match goal with
    | |- context [_connect cfg ?x ?c] =>
        destruct (connect_frame cfg x c) as (-> & _)
    end.
    now destruct (reconnectTimer t).
  - unfold on_end in Hh. injection Hh as <- _. now destruct (socket t).
  - result_of Hh. unfold log.
    destruct (connected t && defined (socket t)).
    + destruct (safeWrite_frame cfg t (wire info) write_throws emit_throws)
        as (_ & Ec & _).
      now destruct (_safeWrite cfg t (wire info) write_throws emit_throws).
    + now destruct (occupancy t >=? bufferMax cfg).
  - result_of Hh. now destruct (close_fields t) as (_ & _ & -> & _).
Qed.

(** The idle timeout on a connected transport destroys the socket but
    leaves the transport marked connected. *)
Lemma connected_written_witness :
  connected (fst (on_timeout (test_config 1) full_connected)) =
  connected full_connected.
Proof.
  apply (connected_written_by_socket_events 0 (test_config 1) full_connected
           (fst (on_timeout (test_config 1) full_connected)) SocketTimeout
           (snd (on_timeout (test_config 1) full_connected))).
  reflexivity.
Defined.

(** X6. Buffered records leave the buffer only in the flush: every handler
    but the ['connect'] listener keeps the buffer as it is, except [log],
    which may add its own record at the tail (buffering) or at the head
    (re-queue after a failed write). *)
Theorem buffer_shrinks_only_in_flush
    (fuel : nat) (cfg : Config) (t t' : TcpTransport) (e : Event)
    (effs : list Effect) :
  not_connect e = true ->
  handle fuel cfg t e = Some (t', effs) ->
  match e with
  | CallLog info _ _ =>
      buffer t' = buffer t \/
      buffer t' = buffer t ++ [wire info] \/
      buffer t' = wire info :: buffer t
  | _ => buffer t' = buffer t
  end.
Proof.
  intros Hq Hh. destruct e; cbn in Hq, Hh; try discriminate.
  - result_of Hh. unfold on_error.
    now destruct (scheduleReconnect_frame cfg (set_connected false t))
      as (-> & _).
  - result_of Hh. unfold on_close.
    destruct (negb (closing (set_connected false t))); [|reflexivity].
    destruct (scheduleReconnect_frame cfg (set_connected false t))
      as (Eb & _).
    now destruct (_scheduleReconnect cfg (set_connected false t)).
  - result_of Hh. unfold on_timeout.
    match goal with
    | |- context [_scheduleReconnect cfg ?x] =>
        destruct (scheduleReconnect_frame cfg x) as (-> & _)
    end.
    now destruct (socket t).
  - result_of Hh. unfold on_timer. rewrite connect_buffer.
    now destruct (reconnectTimer t).
  - unfold on_end in Hh. injection Hh as <- _. now destruct (socket t).
  - result_of Hh. unfold log.
    destruct (connected t && defined (socket t)) eqn:Hw.
    + assert (Hs : socket t <> None).
      { apply andb_true_iff in Hw. destruct Hw as [_ Hw].
        destruct (socket t); [congruence | discriminate]. }
      destruct write_throws.
      * destruct emit_throws.
        { rewrite (safeWrite_emit_throws cfg t (wire info) Hs). auto. }
        destruct (safeWrite_throws cfg t (wire info) Hs) as (Eb & _).
        destruct (_safeWrite cfg t (wire info) true false) as [t1 e1].
        cbn [fst] in *. rewrite Eb.
        destruct (occupancy t <? bufferMax cfg); auto.
      * destruct (socket t) as [s|] eqn:Es; [|congruence].
        rewrite (safeWrite_returns cfg t (wire info) s emit_throws Es).
        auto.
    + destruct (occupancy t >=? bufferMax cfg); cbn; auto.
  - result_of Hh. now destruct (close_fields t) as (-> & _).
Qed.

Lemma buffer_shrinks_only_witness :
  buffer (fst (on_timer (test_config 2) two_buffered true)) =
  buffer two_buffered.
Proof.
  apply (buffer_shrinks_only_in_flush 0 (test_config 2) two_buffered
           (fst (on_timer (test_config 2) two_buffered true))
           (TimerFires true)
           (snd (on_timer (test_config 2) two_buffered true))).
  - reflexivity.
  - reflexivity.
Defined.

(** X7. After construction [socket] is always defined, so the test
    [this.connected && this.socket] of [log] is decided by [connected]
    alone, and the guard [if (!this.socket) return] of [_safeWrite] never
    fires. *)
Theorem write_or_buffer_decided_by_connected
    (cfg : Config) (t : TcpTransport) :
  reachable cfg t ->
  can_write t = connected t /\ socket t <> None.
Proof.
  intros Hr. pose proof (reachable_socket_defined cfg t Hr) as Hd.
  unfold can_write. rewrite Hd, andb_true_r.
  split; [reflexivity|]. destruct (socket t); [congruence | discriminate].
Qed.

Lemma write_or_buffer_witness :
  can_write full_connected = connected full_connected /\
  socket full_connected <> None.
Proof.
  apply (write_or_buffer_decided_by_connected (test_config 1)).
  apply state_after_reachable.
Defined.

(** ** How the handlers compose *)

Lemma run_app (fuel : nat) (cfg : Config) (es1 es2 : list Event) :
  forall t,
    run fuel cfg t (es1 ++ es2) =
    match run fuel cfg t es1 with
    | Some (t1, effs1) =>
        match run fuel cfg t1 es2 with
        | Some (t2, effs2) => Some (t2, effs1 ++ effs2)
        | None => None
        end
    | None => None
    end.
Proof.
  induction es1 as [|e es1 IH]; intros t; cbn.
  - now destruct (run fuel cfg t es2) as [[t2 effs2]|].
  - destruct (enabled e t); [|reflexivity].
    destruct (handle fuel cfg t e) as [[t1 effs1]|]; [|reflexivity].
    rewrite IH.
    destruct (run fuel cfg t1 es1) as [[t2 effs2]|]; [|reflexivity].
    destruct (run fuel cfg t2 es2) as [[t3 effs3]|]; [|reflexivity].
    now rewrite app_assoc.
Qed.

(** X8. A failing socket emits ['error'] and then ['close'], and both
    listeners call [_scheduleReconnect]: the same attempt is announced
    twice, with the same delay and attempt number, around ['disconnected'];
    one timer is left pending and the retry counter is not advanced. *)
Theorem error_then_close_announces_twice (cfg : Config) (t : TcpTransport) :
  closing t = false ->
  retries_exhausted cfg t = false ->
  socket t <> None ->
  run 0 cfg t [SocketError; SocketClose] =
    Some (set_reconnectTimer
            (Some {| timeout_delay := backoff_delay cfg (retryCount t);
                     timeout_pending := true |})
            (set_connected false t),
          [Emit (Reconnecting (backoff_delay cfg (retryCount t))
                              (Z.of_nat (retryCount t) + 1));
           Emit Disconnected;
           Emit (Reconnecting (backoff_delay cfg (retryCount t))
                              (Z.of_nat (retryCount t) + 1))]).
Proof.
  intros Hc He Hs.
  destruct (socket t) as [s|] eqn:Es; [|congruence].
  cbn [run enabled handle]. rewrite Es. cbn [defined]. unfold on_error.
  rewrite (scheduleReconnect_arms cfg (set_connected false t) Hc He).
  cbn [enabled handle socket set_reconnectTimer set_connected].
  rewrite Es. cbn [defined]. unfold on_close.
  cbn [closing set_connected set_reconnectTimer]. rewrite Hc. cbn [negb].
  match goal with
  | |- context [_scheduleReconnect cfg ?x] =>
      rewrite (scheduleReconnect_arms cfg x Hc He)
  end.
  reflexivity.
Qed.

Lemma error_then_close_witness :
  run 0 (test_config 2) two_buffered [SocketError; SocketClose] =
    Some (set_reconnectTimer
            (Some {| timeout_delay := Ms 10; timeout_pending := true |})
            (set_connected false two_buffered),
          [Emit (Reconnecting (Ms 10) 1); Emit Disconnected;
           Emit (Reconnecting (Ms 10) 1)]).
Proof.
  apply (error_then_close_announces_twice (test_config 2) two_buffered).
  - reflexivity.
  - reflexivity.
  - discriminate.
Defined.

(** X9. A record whose direct write throws is overtaken: the transport
    stays marked connected, and the next record logged is passed to
    [socket.write] while the failed one has not been.  The failed record
    is put at the head of the buffer if the ['error'] emit returns; if the
    emit throws, [log] is left by the exception and the record is in
    neither place. *)
Theorem failed_write_is_overtaken
    (cfg : Config) (t : TcpTransport) (s : Net.Socket) (a b : string)
    (emit_throws emit_throws' : bool) :
  connected t = true ->
  socket t = Some s ->
  occupancy t < bufferMax cfg ->
  exists t' effs,
    run 0 cfg t [CallLog a true emit_throws; CallLog b false emit_throws']
      = Some (t', effs) /\
    connected t' = true /\
    buffer t' = (if emit_throws then buffer t else wire a :: buffer t) /\
    written_of t' = Net.written s ++ [wire b] /\
    threw effs = emit_throws.
Proof.
  intros Hc Hs Ho.
  assert (Hw : can_write t = true) by (unfold can_write; now rewrite Hc, Hs).
  assert (Hn : socket t <> None) by congruence.
  cbn [run enabled handle]. destruct emit_throws.
  - rewrite (log_write_fails_throws cfg t a Hw).
    rewrite (log_writes cfg t b s emit_throws' Hc Hs).
    eexists. eexists. split; [reflexivity|].
    unfold written_of. cbn. auto.
  - destruct (safeWrite_throws cfg t (wire a) Hn)
      as (Eb & _ & Ec & _ & Es & Ee).
    pose proof (scheduleReconnect_returns cfg t) as Et.
    apply Z.ltb_lt in Ho. rewrite Ho in Eb.
    rewrite (log_write_fails cfg t a Hw).
    set (r := _safeWrite cfg t (wire a) true false) in *.
    rewrite (log_writes cfg (fst r) b s emit_throws') by congruence.
    eexists. eexists. split; [reflexivity|].
    unfold written_of. cbn [socket set_socket connected buffer option_map
                            Net.written Net.write].
    rewrite Ec, Eb. repeat split; try assumption.
    change (SetImmediate (Logged a) :: snd r ++ [Callback])
      with ([SetImmediate (Logged a)] ++ snd r ++ [Callback]).
    rewrite !threw_app, Ee.
    change (threw (Emit (Error WriteError) :: snd (_scheduleReconnect cfg t)))
      with (threw (snd (_scheduleReconnect cfg t))).
    now rewrite Et.
Qed.

Lemma failed_write_is_overtaken_witness :
  exists t' effs,
    run 0 (test_config 2)
      (state_after 1 (test_config 2) (fresh (test_config 2))
         [SocketConnect never never])
      [CallLog "a" true false; CallLog "b" false false] = Some (t', effs) /\
    connected t' = true /\
    buffer t' = wire "a" :: [] /\
    written_of t' = [] ++ [wire "b"] /\
    threw effs = false.
Proof.
  apply (failed_write_is_overtaken (test_config 2)
           (state_after 1 (test_config 2) (fresh (test_config 2))
              [SocketConnect never never])
           (Net.connect 9000 localhost
              (Net.setKeepAlive 60000 Net.new_Socket))
           "a" "b" false false).
  - reflexivity.
  - reflexivity.
  - vm_compute. reflexivity.
Defined.

(** X10. Records buffered before the connection precede the records
    logged after it: once the ['connect'] listener has returned (the
    ['error'] emit of each failed write returning), a record logged next is
    written after all the buffered ones. *)
Theorem buffered_precede_later_records
    (cfg : Config) (t : TcpTransport) (s : Net.Socket) (w e : nat -> bool)
    (n fuel : nat) (info : string) (emit_throws : bool) :
  socket t = Some s ->
  buffer_inv cfg (buffer t) ->
  settles w n ->
  handled w e ->
  (n + List.length (buffer t) <= fuel)%nat ->
  exists t' effs,
    run fuel cfg t [SocketConnect w e; CallLog info false emit_throws]
      = Some (t', effs) /\
    buffer t' = [] /\
    written_of t' = Net.written s ++ buffer t ++ [wire info].
Proof.
  intros Hs Hb Hw He Hfuel.
  destruct (flush_loop_drains cfg w e n Hw He fuel 0
              (set_retryCount 0 (set_connected true t)) s)
    as (t1 & e1 & E & Et & Eb & Es); try reflexivity; try assumption.
  { cbn. lia. }
  destruct (flush_loop_frame cfg w e fuel 0 _ t1 e1 E) as (_ & Ec & _).
  cbn [buffer connected set_retryCount set_connected] in Es, Ec.
  cbn [run enabled handle]. rewrite Hs. cbn [defined].
  unfold on_connect, _flushBuffer. rewrite E.
  rewrite (log_writes cfg t1 info _ emit_throws Ec Es).
  eexists. eexists. split; [reflexivity|].
  unfold written_of. cbn. rewrite Eb. split; [reflexivity|].
  now rewrite written_write_all, app_assoc.
Qed.

Lemma buffered_precede_later_witness :
  exists t' effs,
    run 3 (test_config 2) two_buffered
      [SocketConnect first_only never; CallLog "c" false false]
      = Some (t', effs) /\
    buffer t' = [] /\
    written_of t' = [] ++ [wire "a"; wire "b"] ++ [wire "c"].
Proof.
  apply (buffered_precede_later_records (test_config 2) two_buffered
           (Net.connect 9000 localhost
              (Net.setKeepAlive 60000 Net.new_Socket))
           first_only never 1 3 "c" false).
  - reflexivity.
  - split; [vm_compute; discriminate | repeat constructor].
  - intros j Hj. destruct j; [lia | reflexivity].
  - intros k _. reflexivity.
  - simpl. lia.
Defined.

(** ** The backoff, continued *)

(** X11. Once the doubling delay has reached [maxBackoff], every later
    attempt waits exactly [maxBackoff] (for a positive [retryDelay]). *)
Theorem backoff_saturates (cfg : Config) (n m : nat) :
  0 < retryDelay cfg ->
  maxBackoff cfg <= retryDelay cfg * 2 ^ Z.of_nat n ->
  (n <= m)%nat ->
  backoff_delay cfg m = Ms (maxBackoff cfg).
Proof.
  intros Hd Hn Hnm. rewrite (backoff_delay_positive cfg m Hd).
  f_equal. apply Z.min_r.
  apply Z.le_trans with (retryDelay cfg * 2 ^ Z.of_nat n); [exact Hn|].
  apply Z.mul_le_mono_nonneg_l; [lia|].
  apply Z.pow_le_mono_r; lia.
Qed.

Lemma backoff_saturates_witness :
  backoff_delay (budget_config 9) 7 = Ms (maxBackoff (budget_config 9)).
Proof.
  apply (backoff_saturates (budget_config 9) 3 7).
  - simpl. lia.
  - simpl. lia.
  - lia.
Defined.

Section RetryRounds.

Variable cfg : Config.

(** [n] failed attempts in a row, as long as the budget lasts: what is
    announced, and the state they leave. *)
Lemma failed_rounds_run (n : nat) :
  forall t,
    closing t = false ->
    socket t <> None ->
    timer_pending t = false ->
    maxRetries cfg < 0 \/ Z.of_nat (retryCount t + n) <= maxRetries cfg ->
    exists t',
      run 0 cfg t (failed_rounds n) =
        Some (t', map (reconnecting_at cfg) (seq (retryCount t) n)) /\
      retryCount t' = (retryCount t + n)%nat /\
      closing t' = false /\
      socket t' <> None /\
      timer_pending t' = false /\
      buffer t' = buffer t.
Proof.
  induction n as [|n IH]; intros t Hc Hs Hp Hm.
  - exists t. cbn. rewrite Nat.add_0_r. repeat split; assumption.
  - assert (He : retries_exhausted cfg (set_connected false t) = false).
    { apply exhausted_false_iff. cbn [retryCount set_connected]. lia. }
    destruct (socket t) as [s|] eqn:Es; [|congruence].
    cbn [failed_rounds run enabled handle]. rewrite Es. cbn [defined].
    unfold on_error.
    rewrite (scheduleReconnect_arms cfg (set_connected false t) Hc He).
    cbn [enabled reconnectTimer set_reconnectTimer timeout_pending handle].
    destruct (on_timer cfg _ false) as [t2 e2] eqn:Et.
    unfold on_timer, _connect in Et. cbn in Et. injection Et as <- <-.
    match goal with
    | |- context [run 0 cfg ?x (failed_rounds n)] => set (t2 := x)
    end.
    destruct (IH t2) as (t' & E & Er & Ec' & Es' & Ep' & Eb');
      [exact Hc | discriminate | reflexivity | |].
    { change (retryCount t2) with (S (retryCount t)).
      destruct Hm as [Hm|Hm]; [now left | right; lia]. }
    exists t'. rewrite E.
    change (retryCount t2) with (S (retryCount t)) in *.
    change (buffer t2) with (buffer t) in Eb'.
    repeat split; auto. lia.
Qed.

End RetryRounds.

(** X12. A bounded budget is spent exactly: with [maxRetries = N], a run
    of failures from a fresh counter makes [N] attempts, announced with the
    delays of indices 0 to [N-1]; the next failure announces nothing and
    leaves no timer pending, so the transport stays disconnected for good,
    without any terminal notification. *)
Theorem bounded_retries_stop
    (cfg : Config) (t : TcpTransport) (N : nat) (c : bool) :
  maxRetries cfg = Z.of_nat N ->
  closing t = false ->
  socket t <> None ->
  timer_pending t = false ->
  retryCount t = 0%nat ->
  exists t',
    run 0 cfg t (failed_rounds N ++ [SocketError; SocketClose]) =
      Some (t', map (reconnecting_at cfg) (seq 0 N) ++ [Emit Disconnected]) /\
    retryCount t' = N /\
    connected t' = false /\
    enabled (TimerFires c) t' = false.
Proof.
  intros Hm Hc Hs Hp Hr.
  destruct (failed_rounds_run cfg N t Hc Hs Hp)
    as (t1 & E & Er & Ec & Es & Ep & _); [rewrite Hr; cbn; lia|].
  rewrite Hr in E, Er. cbn [Nat.add] in Er.
  assert (He : retries_exhausted cfg (set_connected false t1) = true).
  { apply exhausted_iff. cbn [retryCount set_connected]. lia. }
  rewrite run_app, E.
  destruct (socket t1) as [s|] eqn:Es1; [|congruence].
  cbn [run enabled handle]. rewrite Es1. cbn [defined]. unfold on_error.
  rewrite (scheduleReconnect_exhausted cfg _ He).
  cbn [enabled handle socket set_connected]. rewrite Es1. cbn [defined].
  unfold on_close. cbn [closing set_connected]. rewrite Ec. cbn [negb].
  match goal with
  | |- context [_scheduleReconnect cfg ?x] =>
      rewrite (scheduleReconnect_exhausted cfg x He)
  end.
  eexists. split; [reflexivity|].
  split; [exact Er|]. split; [reflexivity | exact Ep].
Qed.

Lemma bounded_retries_stop_witness :
  exists t',
    run 0 (budget_config 3) (fresh (budget_config 3))
      (failed_rounds 3 ++ [SocketError; SocketClose]) =
      Some (t', map (reconnecting_at (budget_config 3)) (seq 0 3)
                ++ [Emit Disconnected]) /\
    retryCount t' = 3%nat /\
    connected t' = false /\
    enabled (TimerFires false) t' = false.
Proof.
  apply (bounded_retries_stop (budget_config 3) (fresh (budget_config 3))
           3 false).
  - reflexivity.
  - reflexivity.
  - discriminate.
  - reflexivity.
  - reflexivity.
Defined.

(** X13. With the default [maxRetries = -1] (any negative value) the
    transport never gives up: after any number of failed attempts the next
    failure still arms the timer, for the delay the code computes for the
    next index ([backoff_delay], overflow included). *)
Theorem unbounded_retries_never_stop
    (cfg : Config) (t : TcpTransport) (n : nat) :
  maxRetries cfg < 0 ->
  closing t = false ->
  socket t <> None ->
  timer_pending t = false ->
  exists t',
    run 0 cfg t (failed_rounds n ++ [SocketError]) =
      Some (t', map (reconnecting_at cfg) (seq (retryCount t) (S n))) /\
    reconnectTimer t' =
      Some {| timeout_delay := backoff_delay cfg (retryCount t + n);
              timeout_pending := true |}.
Proof.
  intros Hm Hc Hs Hp.
  destruct (failed_rounds_run cfg n t Hc Hs Hp)
    as (t1 & E & Er & Ec & Es & Ep & _); [now left|].
  assert (He : retries_exhausted cfg (set_connected false t1) = false).
  { apply exhausted_false_iff. now left. }
  rewrite run_app, E.
  destruct (socket t1) as [s|] eqn:Es1; [|congruence].
  cbn [run enabled handle]. rewrite Es1. cbn [defined]. unfold on_error.
  rewrite (scheduleReconnect_arms cfg (set_connected false t1) Ec He).
  cbn [retryCount set_connected]. rewrite Er.
  eexists. split.
  - rewrite seq_S, map_app. reflexivity.
  - reflexivity.
Qed.

Lemma unbounded_retries_witness :
  exists t',
    run 0 (test_config 2) (fresh (test_config 2))
      (failed_rounds 20 ++ [SocketError]) =
      Some (t', map (reconnecting_at (test_config 2)) (seq 0 21)) /\
    reconnectTimer t' =
      Some {| timeout_delay := backoff_delay (test_config 2) 20;
              timeout_pending := true |}.
Proof.
  apply (unbounded_retries_never_stop (test_config 2)
           (fresh (test_config 2)) 20).
  - simpl. lia.
  - reflexivity.
  - discriminate.
  - reflexivity.
Defined.

(** X14. With only [host] and [port] given, the constructor's defaults
    make the reconnect delays 1 s, 2 s, 4 s, 8 s, 16 s and then 30 s for
    every later attempt, without end ([maxRetries = -1]). *)
Theorem default_backoff_schedule
    (h : string) (p : Z) (t : TcpTransport) (n : nat) :
  backoff_delay (config_of (required_only h p)) n =
    Ms (if (n <? 5)%nat then 1000 * 2 ^ Z.of_nat n else 30000) /\
  retries_exhausted (config_of (required_only h p)) t = false.
Proof.
  split; [|reflexivity].
  rewrite backoff_delay_positive by (cbn; lia). f_equal.
  cbn [config_of required_only nullish retryDelay maxBackoff].
  destruct (n <? 5)%nat eqn:E.
  - apply Nat.ltb_lt in E.
    do 5 (destruct n as [|n]; [reflexivity|]). lia.
  - apply Nat.ltb_ge in E. apply Z.min_r.
    assert (H : 2 ^ 5 <= 2 ^ Z.of_nat n) by (apply Z.pow_le_mono_r; lia).
    change (2 ^ 5) with 32 in H.
    change (30000 <= 1000 * 2 ^ Z.of_nat n). lia.
Qed.

(** ** What [log] does with a record *)

Section LogAccounting.

Variable cfg : Config.

Lemma errors_app (xs ys : list Effect) :
  error_reports (xs ++ ys) = (error_reports xs + error_reports ys)%nat.
Proof. unfold error_reports. now rewrite filter_app, length_app. Qed.

Lemma callbacks_app (xs ys : list Effect) :
  callbacks (xs ++ ys) = (callbacks xs + callbacks ys)%nat.
Proof. unfold callbacks. now rewrite filter_app, length_app. Qed.

Lemma scheduleReconnect_counts (t : TcpTransport) :
  error_reports (snd (_scheduleReconnect cfg t)) = 0%nat /\
  callbacks (snd (_scheduleReconnect cfg t)) = 0%nat.
Proof.
  unfold _scheduleReconnect.
  destruct (closing t); [auto|].
  destruct (retries_exhausted cfg t); auto.
Qed.

(** A failed write reports one error and calls no callback. *)
Lemma safeWrite_throws_counts (t : TcpTransport) (m : string) (e : bool) :
  socket t <> None ->
  error_reports (snd (_safeWrite cfg t m true e)) = 1%nat /\
  callbacks (snd (_safeWrite cfg t m true e)) = 0%nat.
Proof.
  intros Hs.
  destruct e; [now rewrite (safeWrite_emit_throws cfg t m Hs)|].
  destruct (safeWrite_throws cfg t m Hs) as (_ & _ & _ & _ & _ & E).
  rewrite E. destruct (scheduleReconnect_counts t) as [He Hc].
  change (Emit (Error WriteError) :: snd (_scheduleReconnect cfg t))
    with ([Emit (Error WriteError)] ++ snd (_scheduleReconnect cfg t)).
  rewrite errors_app, callbacks_app, He, Hc. auto.
Qed.

Lemma can_write_socket (t : TcpTransport) :
  can_write t = true -> exists s, socket t = Some s /\ connected t = true.
Proof.
  unfold can_write. intros H. apply andb_true_iff in H.
  destruct H as [Hc Hs]. destruct (socket t) as [s|]; [|discriminate].
  now exists s.
Qed.

End LogAccounting.


(** X16. When [log] calls its callback.  If no ['error'] emit throws, the
    callback is called exactly once, as the last thing [log] does, in every
    case: written, buffered, overflow, or failed write.  If the ['error']
    emit throws, which takes a failed write or an overflow, the exception
    leaves [log] and the callback is not called at all. *)
Theorem log_calls_back_once_last
    (cfg : Config) (t : TcpTransport) (info : string)
    (write_throws emit_throws : bool) :
  let effs := snd (log cfg t info write_throws emit_throws) in
  threw effs = emit_throws && (error_reports effs =? 1)%nat /\
  if threw effs then callbacks effs = 0%nat
  else exists before,
         effs = before ++ [Callback] /\ callbacks before = 0%nat.
Proof.
  cbv zeta. destruct (can_write t) eqn:Hw.
  - destruct (can_write_socket t Hw) as (s & Es & Hc).
    destruct write_throws.
    + assert (Hs : socket t <> None) by congruence.
      destruct emit_throws.
      { rewrite (log_write_fails_throws cfg t info Hw). cbn. auto. }
      rewrite (log_write_fails cfg t info Hw). cbn [snd andb].
      destruct (safeWrite_throws_counts cfg t (wire info) false Hs)
        as [_ Hcb].
      pose proof (safeWrite_threw cfg t (wire info) true false) as Ht.
      rewrite andb_false_r in Ht.
      destruct (_safeWrite cfg t (wire info) true false) as [t1 e1].
      cbn [snd] in *.
      change (SetImmediate (Logged info) :: e1 ++ [Callback])
        with ([SetImmediate (Logged info)] ++ e1 ++ [Callback]).
      rewrite !threw_app, Ht. cbn [threw existsb orb].
      split; [reflexivity|].
      exists ([SetImmediate (Logged info)] ++ e1).
      split; [now rewrite app_assoc|].
      now rewrite callbacks_app, Hcb.
    + rewrite (log_writes cfg t info s emit_throws Hc Es). cbn [snd].
      split; [cbn; now rewrite andb_false_r|].
      cbn. now exists [SetImmediate (Logged info)].
  - destruct (Z.lt_ge_cases (occupancy t) (bufferMax cfg)) as [Hlt|Hge].
    + rewrite (log_buffers cfg t info write_throws emit_throws Hw Hlt).
      cbn [snd]. split; [cbn; now rewrite andb_false_r|].
      cbn. now exists [SetImmediate (Logged info)].
    + rewrite (log_overflows cfg t info write_throws emit_throws Hw Hge).
      cbn [snd]. destruct emit_throws; cbn; [auto|].
      split; [reflexivity|].
      now exists [SetImmediate (Logged info); Emit (Error BufferOverflow)].
Qed.

(** ** [close()] and its end callback *)

(** X17. [close()] followed by the end callback of the socket: nothing is
    emitted but ['closed'], once; the socket ends up destroyed, the end
    callback cannot run a second time, no timer is left, and the buffered
    records are neither written nor removed (there is no flush on
    close). *)
Theorem close_then_end_callback
    (cfg : Config) (t : TcpTransport) (s : Net.Socket) :
  socket t = Some s ->
  exists t',
    run 0 cfg t [CallClose; EndCallback] = Some (t', [Emit Closed]) /\
    closing t' = true /\
    reconnectTimer t' = None /\
    option_map Net.destroyed (socket t') = Some true /\
    enabled EndCallback t' = false /\
    buffer t' = buffer t /\
    written_of t' = Net.written s.
Proof.
  intros Hs. destruct t as [b r c cl tm so]. cbn in Hs. subst so.
  destruct tm as [h|]; eexists; (split; [reflexivity|]); cbn; auto 10.
Qed.

Lemma close_then_end_callback_witness :
  exists t',
    run 0 (test_config 2) two_buffered [CallClose; EndCallback] =
      Some (t', [Emit Closed]) /\
    closing t' = true /\
    reconnectTimer t' = None /\
    option_map Net.destroyed (socket t') = Some true /\
    enabled EndCallback t' = false /\
    buffer t' = buffer two_buffered /\
    written_of t' = [].
Proof.
  apply (close_then_end_callback (test_config 2) two_buffered
           (Net.connect 9000 localhost
              (Net.setKeepAlive 60000 Net.new_Socket))).
  reflexivity.
Defined.
